(** * Dictionary-compressed msgpack trace decoder (pkg/trace/pb/decoder.go)

    A shallow embedding of the decoder of [pkg/trace/pb/decoder.go] and the
    properties of it that the specification states.

    The decoder is written against the reader of the msgpack library
    [github.com/tinylib/msgp]: it never touches bytes, only the reader's
    methods ([NextType], [ReadInt64], [ReadArrayHeader], ...).  The embedding
    follows it: a reader is the sequence of msgpack values still to be read
    (module [msgp]), and the functions of [decoder.go] are transcribed over it
    (module [pb]).

    Go conventions kept by the embedding:
    - a Go function returning [(v, err)] returns the pair of a value and an
      [option error]; the value is there also when [err] is not [nil] (the
      decoder reads it in [parseStringDict] and stores it in the span);
    - a run-time panic (index out of range, write to a nil map) is an
      outcome of its own, not an error;
    - fixed-width integers are [Z] with the conversion written out;
    - a Go map is a reference to a mutable object: the heap maps locations
      to map contents and a span holds a location or [nil]. *)

From Stdlib Require Import ZArith Lia.
From Stdlib Require Import Floats.SpecFloat.
From stdpp Require Import gmap strings list fin_maps.

Local Open Scope Z_scope.

(** ** Fixed-width integers *)

Module GoInt.

Definition MaxInt64 : Z := 2 ^ 63 - 1.
Definition MinInt64 : Z := - 2 ^ 63.
Definition MaxInt32 : Z := 2 ^ 31 - 1.
Definition MinInt32 : Z := - 2 ^ 31.
Definition MaxUint32 : Z := 2 ^ 32 - 1.
Definition MaxUint64 : Z := 2 ^ 64 - 1.

(** Go's integer conversions [uint64(x)], [int64(x)], [int32(x)] and
    [uint32(x)]: the value modulo the width, read unsigned or in two's
    complement. *)
Definition to_uint64 (x : Z) : Z := x mod 2 ^ 64.
Definition to_uint32 (x : Z) : Z := x mod 2 ^ 32.
Definition to_int64 (x : Z) : Z := (x + 2 ^ 63) mod 2 ^ 64 - 2 ^ 63.
Definition to_int32 (x : Z) : Z := (x + 2 ^ 31) mod 2 ^ 32 - 2 ^ 31.

Definition is_int64 (x : Z) : Prop := MinInt64 <= x <= MaxInt64.
Definition is_uint64 (x : Z) : Prop := 0 <= x <= MaxUint64.
Definition is_int32 (x : Z) : Prop := MinInt32 <= x <= MaxInt32.
Definition is_uint32 (x : Z) : Prop := 0 <= x <= MaxUint32.

(** [float64(i)] for an integer [i]: the nearest binary64 value. *)
Definition float64 : Type := spec_float.
Definition to_float64 (i : Z) : float64 := binary_normalize 53 1024 i 0 false.

End GoInt.

Import GoInt.

(** ** The msgp reader

    The part of [github.com/tinylib/msgp/msgp] the decoder calls.  The
    library is not part of the repository; it is modelled at the level of
    whole msgpack values: the reader holds the values not yet consumed.
    [NextType] peeks; every [Read*] method consumes the value it accepts.
    Integers follow the library's typing of the lead byte: positive and
    negative fixints and int8..int64 are [IntType], uint8..uint64 are
    [UintType].  [ReadInt64] and [ReadUint64] take an integer of either
    typing and refuse, with an error of their own, the values the result
    type cannot hold; a failed read returns the zero value next to the
    error.  A value cut short by the end of the input is not modelled
    apart from the input ending between two values. *)

Module msgp.

(** [msgp.Type] *)
Inductive Type_ : Set :=
| InvalidType | StrType | BinType | MapType | ArrayType | Float64Type
| Float32Type | BoolType | IntType | UintType | NilType | ExtensionType.

(** One msgpack value on the wire; for arrays and maps, the header alone
    (the elements follow as values of their own). *)
Inductive wire : Type :=
| WNil
| WBool (b : bool)
| WInt (i : Z)            (* fixint, negative fixint, int8..int64 *)
| WUint (u : Z)           (* uint8..uint64 *)
| WFloat32 (f : float64)
| WFloat64 (f : float64)
| WStr (s : string)       (* fixstr, str8..str32 *)
| WBin (b : string)       (* bin8..bin32 *)
| WArrayHeader (sz : Z)   (* fixarray, array16, array32 *)
| WMapHeader (sz : Z)     (* fixmap, map16, map32 *)
| WExt (typ : Z)          (* fixext, ext8..ext32 *)
| WInvalid.               (* the reserved lead byte 0xc1 *)

(** The values a well-formed byte stream can carry. *)
Definition wf_wire (w : wire) : Prop :=
  match w with
  | WInt i => is_int64 i
  | WUint u => is_uint64 u
  | WArrayHeader sz | WMapHeader sz => is_uint32 sz
  | _ => True
  end.

(** Go's [error] values the decoder can return: the reader's own and,
    last, the five that [decoder.go] creates. *)
Inductive error : Type :=
| EOF                                          (* the byte source ran out *)
| InvalidPrefixError
| TypeError (Method Encoded : Type_)           (* msgp.TypeError *)
| IntOverflow (Value : Z) (FailedBitsize : Z)  (* msgp.IntOverflow *)
| UintOverflow (Value : Z) (FailedBitsize : Z) (* msgp.UintOverflow *)
| UintBelowZero (Value : Z)                    (* msgp.UintBelowZero *)
| ErrDictIndex (i : Z)       (* "dictionary index %d out of place" *)
| ErrOverflowsInt64          (* "found uint64, overflows int64" *)
| ErrOverflowsInt32          (* "found uint32, overflows int32" *)
| ErrDictValueType (i : Z)
    (* "dictionary value at index %d has unsupported type" *)
| ErrSpanArity.
    (* "encoded z needs exactly 12 elements in array" *)

(** [*msgp.Reader] *)
Definition Reader : Type := list wire.

Definition getType (w : wire) : Type_ :=
  match w with
  | WNil => NilType
  | WBool _ => BoolType
  | WInt _ => IntType
  | WUint _ => UintType
  | WFloat32 _ => Float32Type
  | WFloat64 _ => Float64Type
  | WStr _ => StrType
  | WBin _ => BinType
  | WArrayHeader _ => ArrayType
  | WMapHeader _ => MapType
  | WExt _ => ExtensionType
  | WInvalid => InvalidType
  end.

Definition badPrefix (want : Type_) (lead : wire) : error :=
  match getType lead with
  | InvalidType => InvalidPrefixError
  | t => TypeError want t
  end.

(** [NextType] returns the type of the next value and leaves it in
    place. *)
Definition NextType (dc : Reader) : Type_ * option error :=
  match dc with
  | [] => (InvalidType, Some EOF)
  | WInvalid :: _ => (InvalidType, Some InvalidPrefixError)
  | w :: _ => (getType w, None)
  end.

Definition ReadInt64 (dc : Reader) : Z * option error * Reader :=
  match dc with
  | [] => (0, Some EOF, dc)
  | WInt i :: rest => (i, None, rest)
  | WUint u :: rest =>
      if MaxInt64 <? u then (0, Some (UintOverflow u 64), rest)
      else (to_int64 u, None, rest)
  | w :: _ => (0, Some (badPrefix IntType w), dc)
  end.

Definition ReadUint64 (dc : Reader) : Z * option error * Reader :=
  match dc with
  | [] => (0, Some EOF, dc)
  | WUint u :: rest => (u, None, rest)
  | WInt i :: rest =>
      if i <? 0 then (0, Some (UintBelowZero i), rest)
      else (to_uint64 i, None, rest)
  | w :: _ => (0, Some (badPrefix UintType w), dc)
  end.

(** [ReadInt32] reads an int64 and narrows it. *)
Definition ReadInt32 (dc : Reader) : Z * option error * Reader :=
  let '(i, err, dc) := ReadInt64 dc in
  if (MaxInt32 <? i) || (i <? MinInt32)
  then (0, Some (IntOverflow i 32), dc)
  else (to_int32 i, err, dc).

Definition ReadUint32 (dc : Reader) : Z * option error * Reader :=
  let '(u, err, dc) := ReadUint64 dc in
  if MaxUint32 <? u
  then (0, Some (UintOverflow u 32), dc)
  else (to_uint32 u, err, dc).

(** [ReadInt], on a platform whose [int] has 64 bits. *)
Definition ReadInt (dc : Reader) : Z * option error * Reader :=
  ReadInt64 dc.

Definition ReadFloat64 (dc : Reader) : float64 * option error * Reader :=
  match dc with
  | [] => (S754_zero false, Some EOF, dc)
  | WFloat64 f :: rest => (f, None, rest)
  | WFloat32 f :: rest => (f, None, rest)
  | w :: _ => (S754_zero false, Some (badPrefix Float64Type w), dc)
  end.

Definition ReadBytes (dc : Reader) : string * option error * Reader :=
  match dc with
  | [] => (""%string, Some EOF, dc)
  | WBin b :: rest => (b, None, rest)
  | w :: _ => (""%string, Some (badPrefix BinType w), dc)
  end.

Definition ReadString (dc : Reader) : string * option error * Reader :=
  match dc with
  | [] => (""%string, Some EOF, dc)
  | WStr s :: rest => (s, None, rest)
  | w :: _ => (""%string, Some (badPrefix StrType w), dc)
  end.

Definition ReadArrayHeader (dc : Reader) : Z * option error * Reader :=
  match dc with
  | [] => (0, Some EOF, dc)
  | WArrayHeader sz :: rest => (sz, None, rest)
  | w :: _ => (0, Some (badPrefix ArrayType w), dc)
  end.

Definition ReadMapHeader (dc : Reader) : Z * option error * Reader :=
  match dc with
  | [] => (0, Some EOF, dc)
  | WMapHeader sz :: rest => (sz, None, rest)
  | w :: _ => (0, Some (badPrefix MapType w), dc)
  end.

(** [msgp.UnsafeString]: the bytes, as a string. *)
Definition UnsafeString (b : string) : string := b.

End msgp.

Import msgp.

(** ** The error kinds of the specification

    The kinds of section 7, and [BelowZero] for the reader's
    [UintBelowZero], which the specification does not name. *)

Inductive ErrorKind : Set :=
| StreamError | TypeMismatch | Overflow | IndexOutOfRange | ArityError
| UnsupportedDictionaryEntryType | BelowZero.

Definition kindOf (e : error) : ErrorKind :=
  match e with
  | EOF => StreamError
  | InvalidPrefixError | TypeError _ _ => TypeMismatch
  | IntOverflow _ _ | UintOverflow _ _ => Overflow
  | ErrOverflowsInt64 | ErrOverflowsInt32 => Overflow
  | UintBelowZero _ => BelowZero
  | ErrDictIndex _ => IndexOutOfRange
  | ErrDictValueType _ => UnsupportedDictionaryEntryType
  | ErrSpanArity => ArityError
  end.

(** ** Package pb: the decoder *)

Module pb.

(** A run-time panic of the Go program. *)
Inductive panic : Type :=
| IndexOutOfRangePanic (i : Z) (length : Z)
    (* index out of range [i] with length n *)
| NilMapAssignPanic      (* assignment to entry in nil map *)
| NilDereferencePanic.   (* nil pointer dereference *)

(** What a call comes to: it returns, or it panics. *)
Inductive result (A : Type) : Type :=
| Normal (a : A)
| Panic (p : panic).
Arguments Normal {A} a.
Arguments Panic {A} p.

Definition len {A} (l : list A) : Z := Z.of_nat (length l).

(** [dict[i]] with Go's bounds check. *)
Definition index {A} (l : list A) (i : Z) : result A :=
  if (i <? 0) || (len l <=? i) then Panic (IndexOutOfRangePanic i (len l))
  else match l !! Z.to_nat i with
       | Some a => Normal a
       | None => Panic (IndexOutOfRangePanic i (len l))
       end.


(** [parseStringDict]: the index is compared with [len(dict)] before
    [err] is looked at, and from above only. *)
Definition parseStringDict (dc : Reader) (dict : list string)
  : result (string * option error) * Reader :=
  let '(i, err, dc) := ReadInt dc in
  if len dict <=? i then (Normal (""%string, Some (ErrDictIndex i)), dc)
  else match index dict i with
       | Normal s => (Normal (s, err), dc)
       | Panic p => (Panic p, dc)
       end.

(** [parseFloat64] *)
Definition parseFloat64 (dc : Reader) : float64 * option error * Reader :=
  match NextType dc with
  | (_, Some err) => (S754_zero false, Some err, dc)
  | (t, None) =>
      match t with
      | IntType =>
          match ReadInt64 dc with
          | (_, Some err, dc) => (S754_zero false, Some err, dc)
          | (i, None, dc) => (to_float64 i, None, dc)
          end
      | UintType =>
          match ReadUint64 dc with
          | (_, Some err, dc) => (S754_zero false, Some err, dc)
          | (i, None, dc) => (to_float64 i, None, dc)
          end
      | Float64Type =>
          match ReadFloat64 dc with
          | (_, Some err, dc) => (S754_zero false, Some err, dc)
          | (f, None, dc) => (f, None, dc)
          end
      | _ => (S754_zero false, Some (TypeError Float64Type t), dc)
      end
  end.

(** [castInt64] *)
Definition castInt64 (v : Z) : Z * bool :=
  if MaxInt64 <? v then (0, false) else (to_int64 v, true).

(** [parseInt64] *)
Definition parseInt64 (dc : Reader) : Z * option error * Reader :=
  match NextType dc with
  | (_, Some err) => (0, Some err, dc)
  | (t, None) =>
      match t with
      | IntType =>
          match ReadInt64 dc with
          | (_, Some err, dc) => (0, Some err, dc)
          | (i, None, dc) => (i, None, dc)
          end
      | UintType =>
          match ReadUint64 dc with
          | (_, Some err, dc) => (0, Some err, dc)
          | (u, None, dc) =>
              match castInt64 u with
              | (_, false) => (0, Some ErrOverflowsInt64, dc)
              | (i, true) => (i, None, dc)
              end
          end
      | _ => (0, Some (TypeError IntType t), dc)
      end
  end.

(** [parseUint64] *)
Definition parseUint64 (dc : Reader) : Z * option error * Reader :=
  match NextType dc with
  | (_, Some err) => (0, Some err, dc)
  | (t, None) =>
      match t with
      | UintType =>
          match ReadUint64 dc with
          | (_, Some err, dc) => (0, Some err, dc)
          | (u, None, dc) => (u, None, dc)
          end
      | IntType =>
          match ReadInt64 dc with
          | (_, Some err, dc) => (0, Some err, dc)
          | (i, None, dc) => (to_uint64 i, None, dc)
          end
      | _ => (0, Some (TypeError IntType t), dc)
      end
  end.

(** [castInt32] *)
Definition castInt32 (v : Z) : Z * bool :=
  if MaxInt32 <? v then (0, false) else (to_int32 v, true).

(** [parseInt32] *)
Definition parseInt32 (dc : Reader) : Z * option error * Reader :=
  match NextType dc with
  | (_, Some err) => (0, Some err, dc)
  | (t, None) =>
      match t with
      | IntType =>
          match ReadInt32 dc with
          | (_, Some err, dc) => (0, Some err, dc)
          | (i, None, dc) => (i, None, dc)
          end
      | UintType =>
          match ReadUint32 dc with
          | (_, Some err, dc) => (0, Some err, dc)
          | (u, None, dc) =>
              match castInt32 u with
              | (_, false) => (0, Some ErrOverflowsInt32, dc)
              | (i, true) => (i, None, dc)
              end
          end
      | _ => (0, Some (TypeError IntType t), dc)
      end
  end.

(** *** Maps

    [map[string]string] and [map[string]float64] values are references:
    [nil] or the location of a map object of the heap. *)

Definition loc : Type := positive.

Record Heap : Type := mkHeap {
  strMaps : gmap loc (gmap string string);
  numMaps : gmap loc (gmap string float64) }.

Section GoMap.
Context {V : Type}.
Implicit Types (h : gmap loc (gmap string V)) (m : option loc).

(** The object a reference points to. *)
Definition deref h (l : loc) : gmap string V := default ∅ (h !! l).

(** [len(m)]; the length of a nil map is 0. *)
Definition lenMap h m : Z :=
  match m with
  | None => 0
  | Some l => Z.of_nat (size (deref h l))
  end.

(** [make(map[string]V, hint)]: a new, empty map object. *)
Definition makeMap h (hint : Z) : loc * gmap loc (gmap string V) :=
  let l := fresh (dom h) in (l, <[l := ∅]> h).

(** [for key := range m { delete(m, key) }] *)
Definition clearMap h (l : loc) : gmap loc (gmap string V) :=
  let obj := deref h l in
  <[l := map_fold (fun key _ acc => delete key acc) obj obj]> h.

(** [m[k] = v]; a write to a nil map panics. *)
Definition mapAssign h m (k : string) (v : V)
  : result (gmap loc (gmap string V)) :=
  match m with
  | None => Panic NilMapAssignPanic
  | Some l => Normal (<[l := <[k := v]> (deref h l)]> h)
  end.
End GoMap.

(** *** Span

    Modelled from the spec: the struct [Span] is declared in the generated
    file span.pb.go, which is not among the sources; its twelve fields are
    those of section 3, with the types given there. *)
Record Span : Type := mkSpan {
  Service : string;
  Name : string;
  Resource : string;
  TraceID : Z;            (* uint64 *)
  SpanID : Z;             (* uint64 *)
  ParentID : Z;           (* uint64 *)
  Start : Z;              (* int64 *)
  Duration : Z;           (* int64 *)
  Error : Z;              (* int32 *)
  Meta : option loc;      (* map[string]string *)
  Metrics : option loc;   (* map[string]float64 *)
  Type' : string }.

(** [new(Span)] *)
Definition newSpan : Span :=
  mkSpan "" "" "" 0 0 0 0 0 0 None None "".

Definition setService (v : string) (z : Span) : Span :=
  mkSpan v (Name z) (Resource z) (TraceID z) (SpanID z) (ParentID z)
    (Start z) (Duration z) (Error z) (Meta z) (Metrics z) (Type' z).
Definition setName (v : string) (z : Span) : Span :=
  mkSpan (Service z) v (Resource z) (TraceID z) (SpanID z) (ParentID z)
    (Start z) (Duration z) (Error z) (Meta z) (Metrics z) (Type' z).
Definition setResource (v : string) (z : Span) : Span :=
  mkSpan (Service z) (Name z) v (TraceID z) (SpanID z) (ParentID z)
    (Start z) (Duration z) (Error z) (Meta z) (Metrics z) (Type' z).
Definition setTraceID (v : Z) (z : Span) : Span :=
  mkSpan (Service z) (Name z) (Resource z) v (SpanID z) (ParentID z)
    (Start z) (Duration z) (Error z) (Meta z) (Metrics z) (Type' z).
Definition setSpanID (v : Z) (z : Span) : Span :=
  mkSpan (Service z) (Name z) (Resource z) (TraceID z) v (ParentID z)
    (Start z) (Duration z) (Error z) (Meta z) (Metrics z) (Type' z).
Definition setParentID (v : Z) (z : Span) : Span :=
  mkSpan (Service z) (Name z) (Resource z) (TraceID z) (SpanID z) v
    (Start z) (Duration z) (Error z) (Meta z) (Metrics z) (Type' z).
Definition setStart (v : Z) (z : Span) : Span :=
  mkSpan (Service z) (Name z) (Resource z) (TraceID z) (SpanID z) (ParentID z)
    v (Duration z) (Error z) (Meta z) (Metrics z) (Type' z).
Definition setDuration (v : Z) (z : Span) : Span :=
  mkSpan (Service z) (Name z) (Resource z) (TraceID z) (SpanID z) (ParentID z)
    (Start z) v (Error z) (Meta z) (Metrics z) (Type' z).
Definition setError (v : Z) (z : Span) : Span :=
  mkSpan (Service z) (Name z) (Resource z) (TraceID z) (SpanID z) (ParentID z)
    (Start z) (Duration z) v (Meta z) (Metrics z) (Type' z).
Definition setMeta (v : option loc) (z : Span) : Span :=
  mkSpan (Service z) (Name z) (Resource z) (TraceID z) (SpanID z) (ParentID z)
    (Start z) (Duration z) (Error z) v (Metrics z) (Type' z).
Definition setMetrics (v : option loc) (z : Span) : Span :=
  mkSpan (Service z) (Name z) (Resource z) (TraceID z) (SpanID z) (ParentID z)
    (Start z) (Duration z) (Error z) (Meta z) v (Type' z).
Definition setType (v : string) (z : Span) : Span :=
  mkSpan (Service z) (Name z) (Resource z) (TraceID z) (SpanID z) (ParentID z)
    (Start z) (Duration z) (Error z) (Meta z) (Metrics z) v.

(** *** Statements

    The body of a decoding method is a sequence of statements over a
    state [S].  A statement goes on to the next one with a value, makes
    the method return [err], or panics; the state it leaves is kept in all
    three cases, as the method works on its receiver in place. *)

Inductive flow (A : Type) : Type :=
| Next (a : A)
| Return (err : option error)
| Panicked (p : panic).
Arguments Next {A} a.
Arguments Return {A} err.
Arguments Panicked {A} p.

Definition Stmt (S A : Type) : Type := S -> flow A * S.

Definition next {S A} (a : A) : Stmt S A := fun st => (Next a, st).

Definition bind {S A B} (c : Stmt S A) (k : A -> Stmt S B) : Stmt S B :=
  fun st =>
    match c st with
    | (Next a, st') => k a st'
    | (Return err, st') => (Return err, st')
    | (Panicked p, st') => (Panicked p, st')
    end.

(** [return err] *)
Definition return_ {S A} (err : option error) : Stmt S A :=
  fun st => (Return err, st).

(** [if err != nil { return }] (the result [err] is named). *)
Definition check {S} (err : option error) : Stmt S unit :=
  match err with
  | Some e => return_ (Some e)
  | None => next tt
  end.

Definition get {S} : Stmt S S := fun st => (Next st, st).
Definition modify {S} (f : S -> S) : Stmt S unit := fun st => (Next tt, f st).

(** A method whose body is [body], called in state [st]. *)
Definition callMethod {S} (body : Stmt S Empty_set) (st : S)
  : result (option error) * S :=
  match body st with
  | (Next a, _) => match a with end
  | (Return err, st') => (Normal err, st')
  | (Panicked p, st') => (Panic p, st')
  end.

Declare Scope stmt_scope.
Delimit Scope stmt_scope with stmt.
Notation "'let*' x ':=' c 'in' k" := (bind c (fun x => k))
  (at level 100, x pattern, c at next level, right associativity)
  : stmt_scope.
Notation "c ;; k" := (bind c (fun _ => k))
  (at level 100, right associativity) : stmt_scope.
Local Open Scope stmt_scope.

(** States that hold the reader and the heap. *)
Class Decoding (S : Type) : Type := {
  reader : S -> Reader;
  withReader : Reader -> S -> S;
  heap : S -> Heap;
  withHeap : Heap -> S -> S }.

Section Calls.
Context {S : Type} `{Decoding S}.

(** A call [v, err := dc.Method()] or [v, err := parseT(dc)]. *)
Definition read {A} (f : Reader -> A * option error * Reader)
  : Stmt S (A * option error) :=
  fun st =>
    let '(v, err, dc) := f (reader st) in (Next (v, err), withReader dc st).

(** [t, err := dc.NextType()] *)
Definition peekType : Stmt S (Type_ * option error) :=
  fun st => (Next (NextType (reader st)), st).

(** [v, err := parseStringDict(dc, dictionary)] *)
Definition readDict (dictionary : list string)
  : Stmt S (string * option error) :=
  fun st =>
    match parseStringDict (reader st) dictionary with
    | (Normal r, dc) => (Next r, withReader dc st)
    | (Panic p, dc) => (Panicked p, withReader dc st)
    end.
End Calls.

(** *** Span.DecodeMsgArray *)

Record SpanSt : Type := mkSpanSt {
  dc : Reader;       (* the reader [decoder] *)
  hp : Heap;
  z : Span }.        (* the receiver [*z] *)

#[export] Instance SpanSt_decoding : Decoding SpanSt := {
  reader := dc;
  withReader d st := mkSpanSt d (hp st) (z st);
  heap := hp;
  withHeap h st := mkSpanSt (dc st) h (z st) }.

(** [z.F = v] *)
Definition store (set : Span -> Span) : Stmt SpanSt unit :=
  modify (fun st => mkSpanSt (dc st) (hp st) (set (z st))).

Definition isNil {A} (m : option A) : bool :=
  match m with None => true | Some _ => false end.

(** [z.Meta = make(map[string]string, metaSize)] *)
Definition makeMeta (metaSize : Z) : Stmt SpanSt unit :=
  fun st =>
    let '(l, sm) := makeMap (strMaps (hp st)) metaSize in
    (Next tt, mkSpanSt (dc st) (mkHeap sm (numMaps (hp st)))
                (setMeta (Some l) (z st))).

(** [for key := range z.Meta { delete(z.Meta, key) }] *)
Definition clearMeta : Stmt SpanSt unit :=
  fun st =>
    match Meta (z st) with
    | None => (Next tt, st)
    | Some l =>
        (Next tt, withHeap (mkHeap (clearMap (strMaps (hp st)) l)
                              (numMaps (hp st))) st)
    end.

(** [z.Meta[k] = v] *)
Definition assignMeta (k v : string) : Stmt SpanSt unit :=
  fun st =>
    match mapAssign (strMaps (hp st)) (Meta (z st)) k v with
    | Normal sm => (Next tt, withHeap (mkHeap sm (numMaps (hp st))) st)
    | Panic p => (Panicked p, st)
    end.

(** [z.Metrics = make(map[string]float64, metricsSize)] *)
Definition makeMetrics (metricsSize : Z) : Stmt SpanSt unit :=
  fun st =>
    let '(l, nm) := makeMap (numMaps (hp st)) metricsSize in
    (Next tt, mkSpanSt (dc st) (mkHeap (strMaps (hp st)) nm)
                (setMetrics (Some l) (z st))).

(** [for key := range z.Metrics { delete(z.Metrics, key) }] *)
Definition clearMetrics : Stmt SpanSt unit :=
  fun st =>
    match Metrics (z st) with
    | None => (Next tt, st)
    | Some l =>
        (Next tt, withHeap (mkHeap (strMaps (hp st))
                              (clearMap (numMaps (hp st)) l)) st)
    end.

(** [z.Metrics[k] = v] *)
Definition assignMetrics (k : string) (v : float64) : Stmt SpanSt unit :=
  fun st =>
    match mapAssign (numMaps (hp st)) (Metrics (z st)) k v with
    | Normal nm => (Next tt, withHeap (mkHeap (strMaps (hp st)) nm) st)
    | Panic p => (Panicked p, st)
    end.

(** [for metaSize > 0 { metaSize--; ... }] *)
Fixpoint metaLoop (dictionary : list string) (metaSize : nat)
  : Stmt SpanSt unit :=
  match metaSize with
  | O => next tt
  | S metaSize =>
      let* (zxvk, err) := readDict dictionary in
      check err ;;
      let* (zbzg, err) := readDict dictionary in
      check err ;;
      assignMeta zxvk zbzg ;;
      metaLoop dictionary metaSize
  end.

(** [for metricsSize > 0 { metricsSize--; ... }] *)
Fixpoint metricsLoop (dictionary : list string) (metricsSize : nat)
  : Stmt SpanSt unit :=
  match metricsSize with
  | O => next tt
  | S metricsSize =>
      let* (zbai, err) := readDict dictionary in
      check err ;;
      let* (zcmr, err) := read parseFloat64 in
      check err ;;
      assignMetrics zbai zcmr ;;
      metricsLoop dictionary metricsSize
  end.

(** The twelve fields, in wire order: the blocks of the method's body. *)

(* Service (0) *)
Definition decodeService (dictionary : list string) : Stmt SpanSt unit :=
  let* (v, err) := readDict dictionary in
  store (setService v) ;;
  check err.

(* Name (1) *)
Definition decodeName (dictionary : list string) : Stmt SpanSt unit :=
  let* (v, err) := readDict dictionary in
  store (setName v) ;;
  check err.

(* Resource (2) *)
Definition decodeResource (dictionary : list string) : Stmt SpanSt unit :=
  let* (v, err) := readDict dictionary in
  store (setResource v) ;;
  check err.

(* TraceID (3) *)
Definition decodeTraceID : Stmt SpanSt unit :=
  let* (v, err) := read parseUint64 in
  store (setTraceID v) ;;
  check err.

(* SpanID (4) *)
Definition decodeSpanID : Stmt SpanSt unit :=
  let* (v, err) := read parseUint64 in
  store (setSpanID v) ;;
  check err.

(* ParentID (5) *)
Definition decodeParentID : Stmt SpanSt unit :=
  let* (v, err) := read parseUint64 in
  store (setParentID v) ;;
  check err.

(* Start (6) *)
Definition decodeStart : Stmt SpanSt unit :=
  let* (v, err) := read parseInt64 in
  store (setStart v) ;;
  check err.

(* Duration (7) *)
Definition decodeDuration : Stmt SpanSt unit :=
  let* (v, err) := read parseInt64 in
  store (setDuration v) ;;
  check err.

(* Error (8) *)
Definition decodeError : Stmt SpanSt unit :=
  let* (v, err) := read parseInt32 in
  store (setError v) ;;
  check err.

(* Meta (9) *)
Definition decodeMeta (dictionary : list string) : Stmt SpanSt unit :=
  let* (metaSize, err) := read ReadMapHeader in
  check err ;;
  let* st := get in
  (if isNil (Meta (z st)) && (0 <? metaSize)
   then makeMeta metaSize
   else if 0 <? lenMap (strMaps (hp st)) (Meta (z st))
        then clearMeta
        else next tt) ;;
  metaLoop dictionary (Z.to_nat metaSize).

(* Metrics (10) *)
Definition decodeMetrics (dictionary : list string) : Stmt SpanSt unit :=
  let* (metricsSize, err) := read ReadMapHeader in
  check err ;;
  let* st := get in
  (if isNil (Metrics (z st)) && (0 <? metricsSize)
   then makeMetrics metricsSize
   else if 0 <? lenMap (numMaps (hp st)) (Metrics (z st))
        then clearMetrics
        else next tt) ;;
  metricsLoop dictionary (Z.to_nat metricsSize).

(* Type (11) *)
Definition decodeType (dictionary : list string) : Stmt SpanSt unit :=
  let* (v, err) := readDict dictionary in
  store (setType v) ;;
  check err.

Definition spanPropertyCount : Z := 12.

Definition Span_DecodeMsgArray (dictionary : list string)
  : Stmt SpanSt Empty_set :=
  let* (xsz, err) := read ReadArrayHeader in
  check err ;;
  (if negb (xsz =? spanPropertyCount)
   then return_ (Some ErrSpanArity)
   else next tt) ;;
  decodeService dictionary ;;
  decodeName dictionary ;;
  decodeResource dictionary ;;
  decodeTraceID ;;
  decodeSpanID ;;
  decodeParentID ;;
  decodeStart ;;
  decodeDuration ;;
  decodeError ;;
  decodeMeta dictionary ;;
  decodeMetrics dictionary ;;
  decodeType dictionary ;;
  return_ None.

(** *** Slices

    A slice is its backing array from the slice's first element on,
    [cap] elements, of which the first [len] are the slice's. *)

Record slice (A : Type) : Type := mkSlice {
  array : list A;
  slen : nat }.
Arguments mkSlice {A} array slen.
Arguments array {A} s.
Arguments slen {A} s.

Definition cap {A} (s : slice A) : Z := len (array s).

(** The nil slice. *)
Definition nilSlice {A} : slice A := mkSlice [] 0.

(** [make([]A, n)]: [n] zero values. *)
Definition makeSlice {A} (zero : A) (n : Z) : slice A :=
  mkSlice (replicate (Z.to_nat n) zero) (Z.to_nat n).

(** [s[:n]], for [n <= cap(s)]. *)
Definition reslice {A} (s : slice A) (n : Z) : slice A :=
  mkSlice (array s) (Z.to_nat n).

(** [s[i]], read and written, with Go's bounds check. *)
Definition sliceGet {A} (s : slice A) (i : nat) : result A :=
  if decide (i < slen s)%nat
  then match array s !! i with
       | Some a => Normal a
       | None => Panic (IndexOutOfRangePanic (Z.of_nat i) (Z.of_nat (slen s)))
       end
  else Panic (IndexOutOfRangePanic (Z.of_nat i) (Z.of_nat (slen s))).

Definition sliceSet {A} (s : slice A) (i : nat) (a : A) : result (slice A) :=
  if decide (i < slen s)%nat
  then Normal (mkSlice (<[i := a]> (array s)) (slen s))
  else Panic (IndexOutOfRangePanic (Z.of_nat i) (Z.of_nat (slen s))).

(** The elements of the slice, without the spare capacity. *)
Definition elems {A} (s : slice A) : list A := take (slen s) (array s).

(** *** Traces.DecodeMsgArray

    Modelled from the spec: [type Trace []*Span] and [type Traces []Trace]
    are declared in trace.go, which is not among the sources (section 3:
    a trace is an ordered sequence of spans, a batch an ordered sequence
    of traces).  A [*Span] is [nil] or the span it points to. *)
Definition Trace : Type := slice (option Span).
Definition Traces : Type := slice Trace.

Record TracesSt : Type := mkTracesSt {
  tdc : Reader;
  thp : Heap;
  tz : Traces }.     (* the receiver [*z] *)

#[export] Instance TracesSt_decoding : Decoding TracesSt := {
  reader := tdc;
  withReader d st := mkTracesSt d (thp st) (tz st);
  heap := thp;
  withHeap h st := mkTracesSt (tdc st) h (tz st) }.

(** [*z = v] *)
Definition storeTraces (f : Traces -> Traces) : Stmt TracesSt unit :=
  modify (fun st => mkTracesSt (tdc st) (thp st) (f (tz st))).

(** A value that may panic, as a statement. *)
Definition eval {S A} (r : result A) : Stmt S A :=
  fun st =>
    match r with
    | Normal a => (Next a, st)
    | Panic p => (Panicked p, st)
    end.

(** [for i := range s { body }] over [n = len(s)] elements, from index
    [i] on. *)
Fixpoint forFrom {St} (i n : nat) (body : nat -> Stmt St unit)
  : Stmt St unit :=
  match n with
  | O => next tt
  | S n => body i ;; forFrom (S i) n body
  end.

Definition forRange {St} (n : nat) (body : nat -> Stmt St unit)
  : Stmt St unit :=
  forFrom 0 n body.

(** The loop over the dictionary, [for i := range dict { ... }], from
    index [i] on with [n] entries to go; the local slice [dict] is passed
    along. *)
Fixpoint dictLoop (i n : nat) (dict : list string)
  : Stmt TracesSt (list string) :=
  match n with
  | O => next dict
  | S n =>
      let* (nextType, err) := peekType in
      check err ;;
      let* dict :=
        match nextType with
        | NilType =>
            next (<[i := ""%string]> dict)
        | BinType =>
            let* (bytes, err) := read ReadBytes in
            check err ;;
            next (<[i := UnsafeString bytes]> dict)
        | StrType =>
            let* (utf8, err) := read ReadString in
            check err ;;
            next (<[i := utf8]> dict)
        | _ =>
            return_ (Some (ErrDictValueType (Z.of_nat i)))
        end in
      dictLoop (S i) n dict
  end.

(** [z[wht][hct]], read and written. *)
Definition slotGet (zs : Traces) (wht hct : nat) : result (option Span) :=
  match sliceGet zs wht with
  | Normal trace => sliceGet trace hct
  | Panic p => Panic p
  end.

Definition slotSet (zs : Traces) (wht hct : nat) (v : option Span)
  : result Traces :=
  match sliceGet zs wht with
  | Normal trace =>
      match sliceSet trace hct v with
      | Normal trace => sliceSet zs wht trace
      | Panic p => Panic p
      end
  | Panic p => Panic p
  end.

(** [err = z[wht][hct].DecodeMsgArray(dc, dict)]: the span decoder runs
    on the span the slot points to, with the reader and the heap of the
    caller; what it did to the span, the reader and the heap stays, also
    when it fails. *)
Definition callSpan (dict : list string) (wht hct : nat)
  : Stmt TracesSt (option error) :=
  fun st =>
    match slotGet (tz st) wht hct with
    | Panic p => (Panicked p, st)
    | Normal None => (Panicked NilDereferencePanic, st)
    | Normal (Some span) =>
        let '(r, sst) :=
          callMethod (Span_DecodeMsgArray dict)
            (mkSpanSt (tdc st) (thp st) span) in
        match slotSet (tz st) wht hct (Some (z sst)) with
        | Panic p => (Panicked p, st)
        | Normal zs =>
            let st' := mkTracesSt (dc sst) (hp sst) zs in
            match r with
            | Normal err => (Next err, st')
            | Panic p => (Panicked p, st')
            end
        end
    end.

(** The block [// read dictionary]: the header of the dictionary and the
    loop over its entries; the value is the local slice [dict]. *)
Definition readDictionary : Stmt TracesSt (list string) :=
  let* (sz, err) := read ReadArrayHeader in
  check err ;;
  dictLoop 0 (Z.to_nat sz) (replicate (Z.to_nat sz) ""%string).

(** The block [// read traces], to the end of the method; at the last
    [return] the named result [err] is nil. *)
Definition readTraces (dict : list string) : Stmt TracesSt Empty_set :=
  let* (xsz, err) := read ReadArrayHeader in
  check err ;;
  let* st := get in
  (if xsz <=? cap (tz st)
   then storeTraces (fun zs => reslice zs xsz)
   else storeTraces (fun _ => makeSlice nilSlice xsz)) ;;
  let* st := get in
  forRange (slen (tz st)) (fun wht =>
    let* (xsz, err) := read ReadArrayHeader in
    check err ;;
    let* st := get in
    let* trace := eval (sliceGet (tz st) wht) in
    let* zs :=
      eval (sliceSet (tz st) wht
              (if xsz <=? cap trace
               then reslice trace xsz
               else makeSlice None xsz)) in
    storeTraces (fun _ => zs) ;;
    let* st := get in
    let* trace := eval (sliceGet (tz st) wht) in
    forRange (slen trace) (fun hct =>
      let* st := get in
      let* ptr := eval (slotGet (tz st) wht hct) in
      (if isNil ptr
       then let* zs := eval (slotSet (tz st) wht hct (Some newSpan)) in
            storeTraces (fun _ => zs)
       else next tt) ;;
      let* err := callSpan dict wht hct in
      check err)) ;;
  return_ None.

Definition Traces_DecodeMsgArray : Stmt TracesSt Empty_set :=
  let* (_, err) := read ReadArrayHeader in
  check err ;;
  let* dict := readDictionary in
  readTraces dict.

End pb.

Import pb.
Local Open Scope stmt_scope.

(** * Notions used by the statements

    What the properties below speak of and the decoder does not compute:
    the fields of a span as one reads them off a state, the entries of a
    map as they stand on the wire, the field at which a decode stopped. *)

Section Views.

(** A method's result, from the way its body ended. *)
Definition outcome {A} (r : flow A) : result (option error) :=
  match r with
  | Next _ => Normal None
  | Return err => Normal err
  | Panicked p => Panic p
  end.

(** The statements [fs] one after the other, then [k]. *)
Definition seqStmts {St A} (fs : list (Stmt St unit)) (k : Stmt St A)
  : Stmt St A :=
  foldr (fun f acc => f ;; acc) k fs.

(** The twelve field decoders of a span record, in wire order. *)
Definition fieldDecoders (dictionary : list string)
  : list (Stmt SpanSt unit) :=
  [ decodeService dictionary; decodeName dictionary;
    decodeResource dictionary; decodeTraceID; decodeSpanID; decodeParentID;
    decodeStart; decodeDuration; decodeError; decodeMeta dictionary;
    decodeMetrics dictionary; decodeType dictionary ].

(** Runs [fs] in order up to the first one that does not go on; gives the
    position of that one ([length fs] if all went on), the way it ended
    and the state it left. *)
Fixpoint runFields {St} (fs : list (Stmt St unit)) (st : St)
  : nat * flow unit * St :=
  match fs with
  | [] => (O, Next tt, st)
  | f :: fs =>
      match f st with
      | (Next _, st1) =>
          let '(k, r, st') := runFields fs st1 in (S k, r, st')
      | (r, st1) => (O, r, st1)
      end
  end.


(** The entries of the map a reference points to; none for [nil]. *)
Definition entries {V} (h : gmap loc (gmap string V)) (m : option loc)
  : gmap string V :=
  match m with
  | None => ∅
  | Some l => deref h l
  end.

(** The value of a field: for a map, the reference and the entries. *)
Inductive FieldValue : Type :=
| VString (s : string)
| VInt (n : Z)
| VStrMap (ref : option loc) (kvs : gmap string string)
| VNumMap (ref : option loc) (kvs : gmap string float64).

(** Field [j] of the span of a state, by its number on the wire. *)
Definition fieldView (j : nat) (st : SpanSt) : FieldValue :=
  match j with
  | 0%nat => VString (Service (z st))
  | 1%nat => VString (Name (z st))
  | 2%nat => VString (Resource (z st))
  | 3%nat => VInt (TraceID (z st))
  | 4%nat => VInt (SpanID (z st))
  | 5%nat => VInt (ParentID (z st))
  | 6%nat => VInt (Start (z st))
  | 7%nat => VInt (Duration (z st))
  | 8%nat => VInt (Error (z st))
  | 9%nat => VStrMap (Meta (z st)) (entries (strMaps (hp st)) (Meta (z st)))
  | 10%nat =>
      VNumMap (Metrics (z st)) (entries (numMaps (hp st)) (Metrics (z st)))
  | 11%nat => VString (Type' (z st))
  | _ => VInt 0
  end.

(** The [n] entries of a Meta map on the wire, from the reader's position
    on: pairs of dictionary indices, resolved. *)
Fixpoint wireMeta (dictionary : list string) (n : nat) (dc : Reader)
  : option (list (string * string) * Reader) :=
  match n with
  | O => Some ([], dc)
  | S n =>
      match parseStringDict dc dictionary with
      | (Normal (k, None), dc) =>
          match parseStringDict dc dictionary with
          | (Normal (v, None), dc) =>
              match wireMeta dictionary n dc with
              | Some (kvs, dc) => Some ((k, v) :: kvs, dc)
              | None => None
              end
          | _ => None
          end
      | _ => None
      end
  end.

(** The [n] entries of a Metrics map on the wire: a dictionary index and
    a number each. *)
Fixpoint wireMetrics (dictionary : list string) (n : nat) (dc : Reader)
  : option (list (string * float64) * Reader) :=
  match n with
  | O => Some ([], dc)
  | S n =>
      match parseStringDict dc dictionary with
      | (Normal (k, None), dc) =>
          match parseFloat64 dc with
          | (v, None, dc) =>
              match wireMetrics dictionary n dc with
              | Some (kvs, dc) => Some ((k, v) :: kvs, dc)
              | None => None
              end
          | _ => None
          end
      | _ => None
      end
  end.

(** The map that holds the entries [kvs], written in that order on top
    of [m]: of two entries with one key, the later stays. *)
Definition writeEntries {V} (m : gmap string V) (kvs : list (string * V))
  : gmap string V :=
  foldl (fun acc kv => <[kv.1 := kv.2]> acc) m kvs.

(** The reference a map field holds after a successful decode, from the
    one it held before, the count [n] on the wire and the heap [h] of
    before: a map that was there is kept, a nil one is made anew only for
    a count above 0. *)
Definition refAfter {V} (h : gmap loc (gmap string V)) (m : option loc)
    (n : Z) : option loc :=
  match m with
  | Some l => Some l
  | None => if 0 <? n then Some (fresh (dom h)) else None
  end.

(** [c] takes every state to an [R]-related one, however it ends. *)
Definition preserves {St A} (R : St -> St -> Prop) (c : Stmt St A) : Prop :=
  forall st r st', c st = (r, st') -> R st st'.

(** A statement that makes the method return only with an error. *)
Definition returnsError {St A} (c : Stmt St A) : Prop :=
  forall st err st', c st = (Return err, st') -> is_Some err.

(** All fields but field [j] are the same in the two states. *)
Definition sameBut (j : nat) (st st' : SpanSt) : Prop :=
  forall i, i <> j -> fieldView i st' = fieldView i st.

(** One value read, the heap and the two map fields as they were. *)
Definition scalarStep (st st' : SpanSt) : Prop :=
  (exists w, dc st = w :: dc st')
  /\ hp st' = hp st
  /\ Meta (z st') = Meta (z st)
  /\ Metrics (z st') = Metrics (z st).

(** A string entry of the dictionary on the wire, as a byte string or as
    a UTF-8 string. *)
Definition dictEntry (e : bool * string) : wire :=
  if e.1 then WBin e.2 else WStr e.2.

(** The wire types the dictionary loop has no case for. *)
Definition unsupportedEntry (w : wire) : bool :=
  match getType w with
  | NilType | BinType | StrType | InvalidType => false
  | _ => true
  end.

(** The span that a decode into slot [0][0] of the batch [zs] works on:
    the span the slot points to, if the backing arrays reach that far and
    the slot is not nil, a new span otherwise. *)
Definition firstSlot (zs : Traces) : Span :=
  match array zs with
  | trace :: _ =>
      match array trace with
      | Some span :: _ => span
      | _ => newSpan
      end
  | [] => newSpan
  end.

(** An integer on the wire, in one of its two typings. *)
Definition wireInt (unsigned : bool) (n : Z) : wire :=
  if unsigned then WUint n else WInt n.

(** The span record of the end-to-end example,
    [0,1,0, 1,2,0, 1000,500,0, {}, {}, 1], with each of its six numbers
    typed as signed or unsigned. *)
Definition exampleRecord (b3 b4 b5 b6 b7 b8 : bool) : Reader :=
  [ WArrayHeader 12;
    WInt 0; WInt 1; WInt 0;
    wireInt b3 1; wireInt b4 2; wireInt b5 0;
    wireInt b6 1000; wireInt b7 500; wireInt b8 0;
    WMapHeader 0; WMapHeader 0;
    WInt 1 ].

(** The payload of the end-to-end example: the dictionary
    ["web", "GET /"] and one trace of that one span record. *)
Definition examplePayload (b3 b4 b5 b6 b7 b8 : bool) : Reader :=
  [ WArrayHeader 2;
    WArrayHeader 2; WStr "web"; WStr "GET /";
    WArrayHeader 1;
    WArrayHeader 1 ] ++ exampleRecord b3 b4 b5 b6 b7 b8.

(** C9 as the specification has it: a top-level count other than 2 never
    decodes without error. *)
Definition top_level_arity_is_checked : Prop :=
  forall (n : Z) (rest : Reader) (h : Heap) (zs : Traces),
    n <> 2 ->
    (callMethod Traces_DecodeMsgArray
       (mkTracesSt (WArrayHeader n :: rest) h zs)).1 <> Normal None.


(** C5 as stated, in its last part: a map field that is unset or empty
    before a successful decode holds a newly allocated map after it. *)
Definition unset_map_is_allocated : Prop :=
  forall (dictionary : list string) (dc0 : Reader) (h : Heap) (z0 : Span)
         (st' : SpanSt),
    lenMap (strMaps h) (Meta z0) = 0 ->
    callMethod (Span_DecodeMsgArray dictionary) (mkSpanSt dc0 h z0)
    = (Normal None, st') ->
    exists l, Meta (z st') = Some l /\ l ∉ dom (strMaps h).

(** A recycled span whose Meta holds {"a": "1", "b": "2"}, and a span
    record whose Meta has the one entry "k": "v". *)
Definition reuseHeap : Heap :=
  mkHeap {[ 1%positive := {[ "a" := "1"; "b" := "2" ]}%string ]} ∅.

Definition reuseSpan : Span := setMeta (Some 1%positive) newSpan.

Definition reuseDict : list string := ["web"; "k"; "v"]%string.

Definition reusePayload : Reader :=
  [ WArrayHeader 12;
    WInt 0; WInt 0; WInt 0;
    WInt 1; WInt 2; WInt 0;
    WInt 1000; WInt 500; WInt 0;
    WMapHeader 1; WInt 1; WInt 2;
    WMapHeader 0;
    WInt 0 ].

(** A panic for a negative index into a slice of length [n]. *)
Definition negativeIndexPanic (n : Z) (p : panic) : Prop :=
  exists i, p = IndexOutOfRangePanic i n /\ i < 0.

(** What a decode may do to the map objects of one type, from the heap [h]
    and the reference [m] of the span's field before to [h'] and [m']
    after: no object is lost; every object that was there, other than the
    one the field pointed to, is as it was; the field points to the object
    it pointed to or to one that was not there before. *)
Definition mapFrame {V} (h h' : gmap loc (gmap string V))
    (m m' : option loc) : Prop :=
  dom h ⊆ dom h'
  /\ (forall l, m <> Some l -> l ∈ dom h -> h' !! l = h !! l)
  /\ (m' = m \/ exists l, m' = Some l /\ l ∉ dom h).

Definition heapFrame (st st' : SpanSt) : Prop :=
  mapFrame (strMaps (hp st)) (strMaps (hp st')) (Meta (z st)) (Meta (z st'))
  /\ mapFrame (numMaps (hp st)) (numMaps (hp st'))
       (Metrics (z st)) (Metrics (z st')).

(** What holds after the statement [c] run in [st]: [Q] of its value and
    state if it goes on, [R] of the error and state if it makes the method
    return, [E] of the panic if it panics. *)
Definition wp {St A} (c : Stmt St A) (Q : A -> St -> Prop)
    (R : option error -> St -> Prop) (E : panic -> Prop) (st : St) : Prop :=
  match c st with
  | (Next a, st') => Q a st'
  | (Return err, st') => R err st'
  | (Panicked p, st') => E p
  end.

(** A trace whose length is within its capacity and whose first [upto]
    slots point to spans. *)
Definition traceFilled (upto : nat) (tr : Trace) : Prop :=
  (slen tr <= length (array tr))%nat
  /\ forall k, (k < upto)%nat -> exists sp, array tr !! k = Some (Some sp).

(** A batch whose length is within its capacity and whose first [upto]
    traces are filled over their whole length. *)
Definition batchFilled (upto : nat) (zs : Traces) : Prop :=
  (slen zs <= length (array zs))%nat
  /\ forall j, (j < upto)%nat ->
       exists tr, array zs !! j = Some tr /\ traceFilled (slen tr) tr.

(** The batch while trace [wht], of length [K], is being read: the traces
    before it are filled, and so are its first [k] slots. *)
Definition readingTrace (M wht K k : nat) (zs : Traces) : Prop :=
  slen zs = M /\ batchFilled wht zs /\ (wht < M)%nat
  /\ exists tr, array zs !! wht = Some tr /\ slen tr = K
                /\ traceFilled k tr.

(** The index [i] on the wire stands for the string [s] of the
    dictionary. *)
Definition dictAt (dictionary : list string) (i : Z) (s : string) : Prop :=
  0 <= i /\ dictionary !! Z.to_nat i = Some s.

End Views.

(** * Properties *)

(** ** Integer conversions *)

Section Conversions.

Lemma to_int64_id (x : Z) : is_int64 x -> to_int64 x = x.
Proof.
  unfold is_int64, MinInt64, MaxInt64, to_int64. intros Hx.
  rewrite Z.mod_small; lia.
Qed.

Lemma to_int32_id (x : Z) : is_int32 x -> to_int32 x = x.
Proof.
  unfold is_int32, MinInt32, MaxInt32, to_int32. intros Hx.
  rewrite Z.mod_small; lia.
Qed.

Lemma to_uint32_id (x : Z) : is_uint32 x -> to_uint32 x = x.
Proof.
  unfold is_uint32, MaxUint32, to_uint32. intros Hx.
  rewrite Z.mod_small; lia.
Qed.

Lemma to_uint64_range (x : Z) : is_uint64 (to_uint64 x).
Proof.
  unfold is_uint64, MaxUint64, to_uint64.
  pose proof (Z.mod_pos_bound x (2 ^ 64) ltac:(lia)). lia.
Qed.

Lemma to_uint64_nonneg (x : Z) : is_int64 x -> 0 <= x -> to_uint64 x = x.
Proof.
  unfold is_int64, MinInt64, MaxInt64, to_uint64. intros Hx Hpos.
  rewrite Z.mod_small; lia.
Qed.

Lemma to_uint64_neg (x : Z) :
  is_int64 x -> x < 0 -> to_uint64 x = x + 2 ^ 64.
Proof.
  unfold is_int64, MinInt64, MaxInt64, to_uint64. intros Hx Hneg.
  rewrite <- (Z.mod_add x 1 (2 ^ 64)) by lia.
  rewrite Z.mod_small; lia.
Qed.

(** The conversion keeps the 64 low bits: the bit pattern is the same. *)
Lemma to_uint64_bits (x n : Z) :
  0 <= n < 64 -> Z.testbit (to_uint64 x) n = Z.testbit x n.
Proof.
  intros Hn. unfold to_uint64. apply Z.mod_pow2_bits_low. lia.
Qed.

Lemma to_int64_to_uint64 (x : Z) : is_int64 x -> to_int64 (to_uint64 x) = x.
Proof.
  intros Hx. destruct (Z.lt_ge_cases x 0) as [Hneg | Hpos].
  - rewrite to_uint64_neg by done.
    unfold is_int64, MinInt64, MaxInt64, to_int64 in *.
    replace (x + 2 ^ 64 + 2 ^ 63) with (x + 2 ^ 63 + 1 * 2 ^ 64) by lia.
    rewrite Z.mod_add by lia. rewrite Z.mod_small; lia.
  - rewrite to_uint64_nonneg by done. by apply to_int64_id.
Qed.

End Conversions.

(** ** DictionaryString *)

Section DictionaryString.
Implicit Types (dc : Reader) (dict : list string) (i : Z).

Lemma index_in_range {A} (l : list A) i :
  0 <= i < len l ->
  exists a, l !! Z.to_nat i = Some a /\ index l i = Normal a.
Proof.
  unfold index, len. intros Hi.
  destruct (Z.ltb_spec i 0); [lia|].
  destruct (Z.leb_spec (Z.of_nat (length l)) i); [lia|]. simpl.
  destruct (lookup_lt_is_Some_2 l (Z.to_nat i)) as [a Ha]; [lia|].
  exists a. by rewrite Ha.
Qed.

Lemma index_negative {A} (l : list A) i :
  i < 0 -> index l i = Panic (IndexOutOfRangePanic i (len l)).
Proof.
  unfold index. intros Hi. by destruct (Z.ltb_spec i 0); [|lia].
Qed.

(** C1. For every dictionary and every index [i] that the reader
    delivers: if [0 <= i < len(dict)] the DictionaryString decoder returns
    [dict[i]] and no error; if [i >= len(dict)] it returns the error
    "dictionary index i out of place", of kind IndexOutOfRange. *)
Theorem parseStringDict_index dc dict i dc' :
  ReadInt dc = (i, None, dc') ->
  (0 <= i < len dict ->
     exists s, dict !! Z.to_nat i = Some s /\
               parseStringDict dc dict = (Normal (s, None), dc')) /\
  (len dict <= i ->
     parseStringDict dc dict
     = (Normal (""%string, Some (ErrDictIndex i)), dc') /\
     kindOf (ErrDictIndex i) = IndexOutOfRange).
Proof.
  intros Hread. unfold parseStringDict. rewrite Hread. split.
  - intros Hi. destruct (Z.leb_spec (len dict) i); [lia|].
    destruct (index_in_range dict i Hi) as (s & Hs & Hidx).
    exists s. by rewrite Hidx.
  - intros Hi. by destruct (Z.leb_spec (len dict) i); [|lia].
Qed.

Lemma parseStringDict_index_witness :
  ReadInt [WInt 1; WInt 5] = (1, None, [WInt 5]) /\
  (exists s, ["web"; "GET /"]%string !! Z.to_nat 1 = Some s /\
             parseStringDict [WInt 1; WInt 5] ["web"; "GET /"]%string
             = (Normal (s, None), [WInt 5])) /\
  parseStringDict [WInt 5] ["web"; "GET /"]%string
  = (Normal (""%string, Some (ErrDictIndex 5)), []).
Proof.
  split; [reflexivity|]. split.
  - apply (parseStringDict_index [WInt 1; WInt 5] ["web"; "GET /"]%string
             1 [WInt 5] eq_refl).
    unfold len; simpl; lia.
  - apply (parseStringDict_index [WInt 5] ["web"; "GET /"]%string
             5 [] eq_refl).
    unfold len; simpl; lia.
Defined.

(** A negative index passes the only comparison there is,
    [i >= len(dict)], and [dict[i]] is evaluated: the program panics. *)
Lemma parseStringDict_negative dict i rest :
  i < 0 ->
  parseStringDict (WInt i :: rest) dict
  = (Panic (IndexOutOfRangePanic i (len dict)), rest).
Proof.
  intros Hi. unfold parseStringDict, ReadInt, ReadInt64.
  destruct (Z.leb_spec (len dict) i); [unfold len in *; lia|].
  by rewrite index_negative.
Qed.

(** C6. The index -1 against the dictionary ["web"; "GET /"]: no
    IndexOutOfRange error is returned, the read of [dict[-1]] panics. *)
Theorem parseStringDict_minus_one_panics :
  parseStringDict [WInt (-1)] ["web"; "GET /"]%string
  = (Panic (IndexOutOfRangePanic (-1) 2), []).
Proof. reflexivity. Qed.

(** The same in a batch: a span record whose Service index is -1 makes the
    whole decode panic. *)
Example Traces_DecodeMsgArray_negative_index :
  (callMethod Traces_DecodeMsgArray
     (mkTracesSt [ WArrayHeader 2; WArrayHeader 1; WStr "web";
                   WArrayHeader 1; WArrayHeader 1; WArrayHeader 12;
                   WInt (-1) ] (mkHeap ∅ ∅) nilSlice)).1
  = Panic (IndexOutOfRangePanic (-1) 1).
Proof. reflexivity. Qed.

End DictionaryString.

(** ** Uint64, Int64, Int32 *)

Section Integers.
Implicit Types (rest : Reader) (u i : Z).

(** C2. The Uint64 decoder returns an unsigned wire integer as it is, and
    a signed wire integer converted by [uint64(i)], without error in both
    cases; for a signed 64-bit [i] that conversion keeps the 64 bits of
    the two's-complement pattern, so that a negative [i] becomes
    [i + 2^64] with no check of the magnitude, and -1 becomes
    18446744073709551615. *)
Theorem parseUint64_wire_integer rest :
  (forall u, parseUint64 (WUint u :: rest) = (u, None, rest)) /\
  (forall i, parseUint64 (WInt i :: rest) = (to_uint64 i, None, rest)) /\
  (forall i n, 0 <= n < 64 -> Z.testbit (to_uint64 i) n = Z.testbit i n) /\
  (forall i, is_int64 i ->
     is_uint64 (to_uint64 i) /\
     (0 <= i -> to_uint64 i = i) /\
     (i < 0 -> to_uint64 i = i + 2 ^ 64)) /\
  parseUint64 (WInt (-1) :: rest) = (18446744073709551615, None, rest).
Proof.
  split; [done|]. split; [done|]. split; [apply to_uint64_bits|].
  split; [|done]. intros i Hi. split; [apply to_uint64_range|].
  split; [by apply to_uint64_nonneg | by apply to_uint64_neg].
Qed.

Lemma parseUint64_wire_integer_witness :
  is_int64 (-2) /\
  parseUint64 [WInt (-2)] = (18446744073709551614, None, []) /\
  to_uint64 (-2) = -2 + 2 ^ 64.
Proof.
  assert (Hr : is_int64 (-2)) by (unfold is_int64, MinInt64, MaxInt64; lia).
  split; [exact Hr|].
  destruct (parseUint64_wire_integer []) as (_ & Hint & _ & Hconv & _).
  split.
  - rewrite Hint. reflexivity.
  - apply (Hconv (-2) Hr). lia.
Defined.

Lemma parseInt64_unsigned u rest :
  parseInt64 (WUint u :: rest)
  = if MaxInt64 <? u then (0, Some ErrOverflowsInt64, rest)
    else (to_int64 u, None, rest).
Proof.
  unfold parseInt64, castInt64. simpl. by destruct (MaxInt64 <? u).
Qed.

Lemma parseInt32_unsigned u rest :
  0 <= u ->
  parseInt32 (WUint u :: rest)
  = if MaxUint32 <? u then (0, Some (UintOverflow u 32), rest)
    else if MaxInt32 <? u then (0, Some ErrOverflowsInt32, rest)
    else (to_int32 u, None, rest).
Proof.
  intros Hpos. unfold parseInt32, ReadUint32, castInt32. simpl.
  destruct (Z.ltb_spec MaxUint32 u) as [Hbig | Hsmall]; [done|].
  rewrite to_uint32_id by done. by destruct (MaxInt32 <? u).
Qed.

(** On well-formed wire values the decoders return values of their Go
    types. *)
Lemma parseUint64_range dc v err dc' :
  Forall wf_wire dc -> parseUint64 dc = (v, err, dc') -> is_uint64 v.
Proof.
  intros Hwf. unfold parseUint64.
  destruct dc as [|w dc]; simpl;
    [intros; simplify_eq; unfold is_uint64, MaxUint64; lia|].
  apply Forall_cons in Hwf as [Hw _].
  destruct w; simpl in *; intros Hp; simplify_eq;
    first [ apply to_uint64_range | done
          | unfold is_uint64, MaxUint64; lia ].
Qed.

Lemma parseInt64_range dc v err dc' :
  Forall wf_wire dc -> parseInt64 dc = (v, err, dc') -> is_int64 v.
Proof.
  intros Hwf.
  assert (H0 : is_int64 0) by (unfold is_int64, MinInt64, MaxInt64; lia).
  destruct dc as [|w dc]; [unfold parseInt64; simpl; by intros; simplify_eq|].
  apply Forall_cons in Hwf as [Hw _].
  destruct w; try (unfold parseInt64; simpl; intros; by simplify_eq).
  rewrite parseInt64_unsigned. simpl in Hw. unfold is_uint64 in Hw.
  destruct (Z.ltb_spec MaxInt64 u); intros Hp; simplify_eq; [done|].
  rewrite to_int64_id; unfold is_int64, MinInt64; lia.
Qed.

Lemma parseInt32_range dc v err dc' :
  Forall wf_wire dc -> parseInt32 dc = (v, err, dc') -> is_int32 v.
Proof.
  intros Hwf.
  assert (H0 : is_int32 0) by (unfold is_int32, MinInt32, MaxInt32; lia).
  destruct dc as [|w dc]; [unfold parseInt32; simpl; by intros; simplify_eq|].
  apply Forall_cons in Hwf as [Hw _].
  destruct w; try (unfold parseInt32; simpl; intros; by simplify_eq).
  - unfold parseInt32, ReadInt32. simpl.
    destruct (Z.ltb_spec MaxInt32 i); simpl; [intros; by simplify_eq|].
    destruct (Z.ltb_spec i MinInt32); simpl; intros; simplify_eq; [done|].
    rewrite to_int32_id; unfold is_int32; lia.
  - simpl in Hw. unfold is_uint64 in Hw.
    rewrite parseInt32_unsigned by lia.
    destruct (Z.ltb_spec MaxUint32 u); [intros; by simplify_eq|].
    destruct (Z.ltb_spec MaxInt32 u); intros; simplify_eq; [done|].
    rewrite to_int32_id; unfold is_int32, MinInt32; lia.
Qed.

(** C3. An unsigned wire integer [u] given to the Int64 decoder: above
    2^63-1 the decoder fails with "found uint64, overflows int64", up to
    2^63-1 it returns [u]; given to the Int32 decoder: above 2^31-1 it
    fails with an error of kind Overflow, up to 2^31-1 it returns [u].
    In both, an Overflow error comes out if and only if [u] exceeds the
    signed maximum of the width. *)
Theorem parseInt_unsigned_overflow u rest :
  is_uint64 u ->
  (MaxInt64 < u ->
     parseInt64 (WUint u :: rest) = (0, Some ErrOverflowsInt64, rest)) /\
  (u <= MaxInt64 -> parseInt64 (WUint u :: rest) = (u, None, rest)) /\
  (MaxInt32 < u ->
     exists e, parseInt32 (WUint u :: rest) = (0, Some e, rest) /\
               kindOf e = Overflow) /\
  (u <= MaxInt32 -> parseInt32 (WUint u :: rest) = (u, None, rest)) /\
  ((exists e, (parseInt64 (WUint u :: rest)).1.2 = Some e /\
              kindOf e = Overflow) <-> MaxInt64 < u) /\
  ((exists e, (parseInt32 (WUint u :: rest)).1.2 = Some e /\
              kindOf e = Overflow) <-> MaxInt32 < u).
Proof.
  intros [Hpos Hmax].
  rewrite parseInt64_unsigned, (parseInt32_unsigned u rest Hpos).
  assert (H32 : MaxInt32 < MaxUint32) by (unfold MaxInt32, MaxUint32; lia).
  destruct (Z.ltb_spec MaxInt64 u) as [H64 | H64];
    destruct (Z.ltb_spec MaxUint32 u) as [Hu32 | Hu32];
    destruct (Z.ltb_spec MaxInt32 u) as [Hi32 | Hi32];
    try lia; simpl;
    repeat match goal with
      | |- _ /\ _ => split
      | |- _ <-> _ => split
      | |- _ -> _ => intros ?
      end;
    try lia; try done; try (eexists; split; [reflexivity|reflexivity]);
    try (rewrite to_int64_id by (unfold is_int64, MinInt64; lia); done);
    try (rewrite to_int32_id by (unfold is_int32, MinInt32; lia); done);
    try (match goal with H : exists _, _ |- _ =>
           destruct H as (? & ? & ?); discriminate end).
  all: unfold MaxInt64, MaxUint32 in *; lia.
Qed.

Lemma parseInt_unsigned_overflow_witness :
  is_uint64 (2 ^ 63) /\
  parseInt64 [WUint (2 ^ 63)] = (0, Some ErrOverflowsInt64, []) /\
  (exists e, parseInt32 [WUint (2 ^ 63)] = (0, Some e, []) /\
             kindOf e = Overflow).
Proof.
  assert (Hr : is_uint64 (2 ^ 63)) by (unfold is_uint64, MaxUint64; lia).
  split; [exact Hr|].
  destruct (parseInt_unsigned_overflow (2 ^ 63) [] Hr)
    as (H64 & _ & H32 & _).
  split.
  - apply H64. unfold MaxInt64. lia.
  - apply H32. unfold MaxInt32. lia.
Defined.

End Integers.

(** ** The span record: arity *)

Section SpanArity.

(** C4. A span record whose array header declares a count other than 12:
    the span decoder returns the arity error right after the header, the
    reader stands at the first element, and the destination span and the
    heap of its maps are as they were before the call. *)
Theorem Span_DecodeMsgArray_arity
    (dictionary : list string) (xsz : Z) (rest : Reader) (h : Heap)
    (z0 : Span) :
  xsz <> spanPropertyCount ->
  callMethod (Span_DecodeMsgArray dictionary)
    (mkSpanSt (WArrayHeader xsz :: rest) h z0)
  = (Normal (Some ErrSpanArity), mkSpanSt rest h z0)
  /\ kindOf ErrSpanArity = ArityError.
Proof.
  intros Hsz. split; [|done].
  unfold Span_DecodeMsgArray, callMethod, bind, read. simpl.
  destruct (Z.eqb_spec xsz spanPropertyCount); [done|]. reflexivity.
Qed.

Lemma Span_DecodeMsgArray_arity_witness :
  11 <> spanPropertyCount /\
  callMethod (Span_DecodeMsgArray ["web"%string])
    (mkSpanSt [WArrayHeader 11; WInt 0] (mkHeap ∅ ∅) newSpan)
  = (Normal (Some ErrSpanArity), mkSpanSt [WInt 0] (mkHeap ∅ ∅) newSpan).
Proof.
  assert (Hne : 11 <> spanPropertyCount) by (unfold spanPropertyCount; lia).
  split; [exact Hne|].
  apply (Span_DecodeMsgArray_arity ["web"%string] 11 [WInt 0]
           (mkHeap ∅ ∅) newSpan Hne).
Defined.

End SpanArity.

(** ** The batch *)

Section Batch.

(** The example payload decoded into a fresh batch, with its numbers typed
    as signed: the state the decoder leaves. *)
Example fresh_batch_example :
  callMethod Traces_DecodeMsgArray
    (mkTracesSt (examplePayload false false false false false false)
       (mkHeap ∅ ∅) nilSlice)
  = (Normal None,
     mkTracesSt [] (mkHeap ∅ ∅)
       (mkSlice
          [mkSlice
             [Some (mkSpan "web" "GET /" "web" 1 2 0 1000 500 0 None None
                      "GET /")] 1] 1)).
Proof. reflexivity. Qed.

(** C9, as stated, fails: a top-level array that declares 3 elements,
    followed by an empty dictionary and an empty list of traces, decodes
    without error. *)
Lemma top_level_arity_not_checked : ~ top_level_arity_is_checked.
Proof.
  intros Hclaim.
  apply (Hclaim 3 [WArrayHeader 0; WArrayHeader 0] (mkHeap ∅ ∅) nilSlice);
    [lia|]. reflexivity.
Qed.

(** C9, amended. The top-level value must be an array header: on anything
    else the decoder fails at once, reading nothing.  The count the header
    declares is read and dropped: what follows it is decoded in the same
    way whatever the count is. *)
Theorem Traces_DecodeMsgArray_top_level :
  (forall (n m : Z) (rest : Reader) (h : Heap) (zs : Traces),
     callMethod Traces_DecodeMsgArray
       (mkTracesSt (WArrayHeader n :: rest) h zs)
     = callMethod Traces_DecodeMsgArray
         (mkTracesSt (WArrayHeader m :: rest) h zs)) /\
  (forall (dc : Reader) (h : Heap) (zs : Traces),
     (forall n, head dc <> Some (WArrayHeader n)) ->
     exists e,
       callMethod Traces_DecodeMsgArray (mkTracesSt dc h zs)
       = (Normal (Some e), mkTracesSt dc h zs)
       /\ (kindOf e = TypeMismatch \/ kindOf e = StreamError)).
Proof.
  split.
  - intros n m rest h zs. reflexivity.
  - intros dc h zs Hhead.
    destruct dc as [|w dc]; [by exists EOF; split; [|right]|].
    destruct w; try (eexists; split; [reflexivity|by left]).
    by destruct (Hhead sz).
Qed.

Lemma Traces_DecodeMsgArray_top_level_witness :
  (forall n, head [WMapHeader 2; WArrayHeader 0; WArrayHeader 0]
             <> Some (WArrayHeader n)) /\
  exists e,
    callMethod Traces_DecodeMsgArray
      (mkTracesSt [WMapHeader 2; WArrayHeader 0; WArrayHeader 0]
         (mkHeap ∅ ∅) nilSlice)
    = (Normal (Some e),
       mkTracesSt [WMapHeader 2; WArrayHeader 0; WArrayHeader 0]
         (mkHeap ∅ ∅) nilSlice)
    /\ (kindOf e = TypeMismatch \/ kindOf e = StreamError).
Proof.
  assert (Hh : forall n, head [WMapHeader 2; WArrayHeader 0; WArrayHeader 0]
                         <> Some (WArrayHeader n)) by (intros n; discriminate).
  split; [exact Hh|].
  apply (proj2 Traces_DecodeMsgArray_top_level
           [WMapHeader 2; WArrayHeader 0; WArrayHeader 0]
           (mkHeap ∅ ∅) nilSlice Hh).
Defined.

(** C7. The dictionary [nil, "a"] followed by an empty list of traces.
    The nil entry is given the empty string but is not consumed: the
    second entry is decoded from the same nil and comes out as the empty
    string, not "a"; the decoder then looks for the header of the traces
    at that nil and fails with a type error. *)
Theorem Traces_DecodeMsgArray_nil_entry :
  dictLoop 0 2 [""; ""]%string
    (mkTracesSt [WNil; WStr "a"; WArrayHeader 0] (mkHeap ∅ ∅) nilSlice)
  = (Next [""; ""]%string,
     mkTracesSt [WNil; WStr "a"; WArrayHeader 0] (mkHeap ∅ ∅) nilSlice)
  /\ callMethod Traces_DecodeMsgArray
       (mkTracesSt [WArrayHeader 2; WArrayHeader 2;
                    WNil; WStr "a"; WArrayHeader 0] (mkHeap ∅ ∅) nilSlice)
     = (Normal (Some (TypeError ArrayType NilType)),
        mkTracesSt [WNil; WStr "a"; WArrayHeader 0] (mkHeap ∅ ∅) nilSlice).
Proof. split; reflexivity. Qed.

(** *** The dictionary *)

(** String entries are read one by one into their slots. *)
Lemma dictLoop_strings (es : list (bool * string)) :
  forall (n : nat) (pre pad post : list string) rest h zs,
    length pad = length es ->
    dictLoop (length pre) (length es + n) (pre ++ pad ++ post)
      (mkTracesSt (map dictEntry es ++ rest) h zs)
    = dictLoop (length pre + length es) n (pre ++ es.*2 ++ post)
        (mkTracesSt rest h zs).
Proof.
  induction es as [|[b s] es IH]; intros n pre pad post rest h zs Hpad.
  - destruct pad; [|done]. simpl. by rewrite Nat.add_0_r.
  - destruct pad as [|p pad]; [done|]. simpl in Hpad.
    assert (Hins : forall v : string,
               <[length pre := v]> (pre ++ (p :: pad) ++ post)
               = (pre ++ [v]) ++ pad ++ post).
    { intros v. rewrite insert_app_r_alt by lia.
      rewrite Nat.sub_diag. simpl. by rewrite <- app_assoc. }
    specialize (IH n (pre ++ [s]) pad post rest h zs ltac:(lia)).
    rewrite length_app in IH. simpl in IH.
    change (length ((b, s) :: es)) with (S (length es)).
    replace (length pre + S (length es))%nat
      with (length pre + 1 + length es)%nat by lia.
    replace ((pre ++ [s]) ++ es.*2 ++ post)
      with (pre ++ ((b, s) :: es).*2 ++ post) in IH
      by (simpl; by rewrite <- app_assoc).
    rewrite <- IH. simpl.
    unfold bind, peekType, read, check, next. simpl.
    destruct b; simpl; rewrite Hins;
      by replace (length pre + 1)%nat with (S (length pre)) by lia.
Qed.

Lemma dictLoop_strings_from_start (es : list (bool * string)) (n : nat)
    (post : list string) rest h zs :
  dictLoop 0 (length es + n) (replicate (length es) ""%string ++ post)
    (mkTracesSt (map dictEntry es ++ rest) h zs)
  = dictLoop (length es) n (es.*2 ++ post) (mkTracesSt rest h zs).
Proof.
  apply (dictLoop_strings es n [] (replicate (length es) ""%string) post).
  apply length_replicate.
Qed.

(** At a nil the loop stands still: the entry in turn and all that follow
    are set to the empty string, and the nil is still the next value. *)
Lemma dictLoop_nil (n : nat) :
  forall (i : nat) (dict : list string) rest h zs,
  exists dict',
    dictLoop i n dict (mkTracesSt (WNil :: rest) h zs)
    = (Next dict', mkTracesSt (WNil :: rest) h zs)
    /\ length dict' = length dict
    /\ forall j, (j < length dict)%nat ->
         dict' !! j = if decide (i <= j < i + n)%nat
                      then Some ""%string else dict !! j.
Proof.
  induction n as [|n IH]; intros i dict rest h zs.
  - exists dict. split; [done|]. split; [done|]. intros j Hj.
    destruct (decide (i <= j < i + 0)%nat); [lia|done].
  - destruct (IH (S i) (<[i := ""%string]> dict) rest h zs)
      as (dict' & Hrun & Hlen & Hlook).
    exists dict'. split; [exact Hrun|].
    rewrite length_insert in Hlen, Hlook. split; [done|].
    intros j Hj. rewrite (Hlook j Hj).
    destruct (decide (S i <= j < S i + n)%nat);
      destruct (decide (i <= j < i + S n)%nat); try lia; try done.
    + destruct (decide (i = j)) as [-> | Hne].
      * by rewrite list_lookup_insert_eq.
      * lia.
    + rewrite list_lookup_insert_ne; [done|lia].
Qed.

(** What holds of C7: a dictionary of [len es] string entries, each a byte
    string or a UTF-8 string, is read to the list of those strings. *)
Lemma readDictionary_strings (es : list (bool * string)) rest h zs :
  readDictionary
    (mkTracesSt (WArrayHeader (len es) :: map dictEntry es ++ rest) h zs)
  = (Next es.*2, mkTracesSt rest h zs).
Proof.
  unfold readDictionary, bind, read, check, next. simpl.
  unfold len. rewrite Nat2Z.id.
  pose proof (dictLoop_strings_from_start es 0 [] rest h zs) as Hloop.
  rewrite !app_nil_r, Nat.add_0_r in Hloop. exact Hloop.
Qed.

(** What holds of C7: after string entries, an entry of a type other than
    nil, byte string and UTF-8 string makes the whole decode fail with the
    unsupported-type error for its index. *)
Lemma Traces_DecodeMsgArray_unsupported_entry
    (a sz : Z) (es : list (bool * string)) (w : wire) rest h zs :
  (length es < Z.to_nat sz)%nat ->
  unsupportedEntry w = true ->
  callMethod Traces_DecodeMsgArray
    (mkTracesSt (WArrayHeader a :: WArrayHeader sz :: map dictEntry es
                   ++ w :: rest) h zs)
  = (Normal (Some (ErrDictValueType (len es))), mkTracesSt (w :: rest) h zs)
  /\ kindOf (ErrDictValueType (len es)) = UnsupportedDictionaryEntryType.
Proof.
  intros Hlen Hw. split; [|done].
  unfold Traces_DecodeMsgArray, readDictionary, callMethod.
  unfold bind at 1 2 3 4 5, read, check, next. simpl.
  replace (Z.to_nat sz)
    with (length es + S (Z.to_nat sz - length es - 1))%nat by lia.
  rewrite replicate_add.
  rewrite dictLoop_strings_from_start. simpl.
  unfold bind, peekType, check, return_. simpl.
  destruct w; try done.
Qed.

(** The defect behind C7, in general: a nil entry of the dictionary, after
    string entries, makes the whole decode fail, with a type error at the
    header of the traces, which is looked for at the nil. *)
Lemma nil_entry_fails_decode
    (a sz : Z) (es : list (bool * string)) rest h zs :
  (length es < Z.to_nat sz)%nat ->
  callMethod Traces_DecodeMsgArray
    (mkTracesSt (WArrayHeader a :: WArrayHeader sz :: map dictEntry es
                   ++ WNil :: rest) h zs)
  = (Normal (Some (TypeError ArrayType NilType)),
     mkTracesSt (WNil :: rest) h zs).
Proof.
  intros Hlen.
  unfold Traces_DecodeMsgArray, readDictionary, callMethod.
  unfold bind at 1 2 3 4 5, read, check, next. simpl.
  replace (Z.to_nat sz)
    with (length es + S (Z.to_nat sz - length es - 1))%nat by lia.
  rewrite replicate_add.
  rewrite dictLoop_strings_from_start.
  destruct (dictLoop_nil (S (Z.to_nat sz - length es - 1)) (length es)
              (es.*2 ++ replicate (S (Z.to_nat sz - length es - 1)) ""%string)
              rest h zs) as (dict' & Hnil & _).
  rewrite Hnil. reflexivity.
Qed.

End Batch.

(** ** Sequences of statements *)

Section Sequences.
Context {St : Type}.
Implicit Types (fs : list (Stmt St unit)) (st : St).

Lemma callMethod_seqStmts fs st :
  callMethod (seqStmts fs (return_ None)) st
  = (outcome (runFields fs st).1.2, (runFields fs st).2).
Proof.
  revert st. induction fs as [|f fs IH]; intros st; [done|].
  simpl. unfold callMethod, bind in *.
  destruct (f st) as [[[] | err | p] st1]; simpl; try done.
  rewrite IH. by destruct (runFields fs st1) as [[k r] st2].
Qed.

(** Where a run stopped short: the decoders before went on, that one did
    not. *)
Lemma runFields_stopped fs st k r st' :
  runFields fs st = (k, r, st') ->
  (forall u, r <> Next u) ->
  exists f stk,
    fs !! k = Some f /\
    runFields (take k fs) st = (k, Next tt, stk) /\
    f stk = (r, st').
Proof.
  revert st k. induction fs as [|f fs IH]; intros st k Hrun Hr; simpl in *.
  - simplify_eq. by destruct (Hr tt).
  - destruct (f st) as [[[] | err | p] st1] eqn:Hf.
    + destruct (runFields fs st1) as [[k1 r1] st2] eqn:Hrest.
      simplify_eq.
      destruct (IH st1 k1 Hrest Hr) as (g & stk & Hg & Hpre & Hstep).
      exists g, stk. simpl. rewrite Hf, Hpre. done.
    + simplify_eq. exists f, st. done.
    + simplify_eq. exists f, st. done.
Qed.


End Sequences.

(** ** What a statement leaves alone *)

Section Preservation.
Context {St : Type} (R : St -> St -> Prop) `{!PreOrder R}.

Lemma preserves_next {A} (a : A) : preserves R (next a).
Proof. intros st r st' Hc. unfold next in Hc. by simplify_eq. Qed.

Lemma preserves_return {A} err : preserves R (@return_ St A err).
Proof. intros st r st' Hc. unfold return_ in Hc. by simplify_eq. Qed.

Lemma preserves_check err : preserves R (@check St err).
Proof.
  destruct err; [apply preserves_return | apply preserves_next].
Qed.

Lemma preserves_get : preserves R (@get St).
Proof. intros st r st' Hc. unfold get in Hc. by simplify_eq. Qed.

Lemma preserves_bind {A B} (c : Stmt St A) (k : A -> Stmt St B) :
  preserves R c -> (forall a, preserves R (k a)) ->
  preserves R (bind c k).
Proof.
  intros Hc Hk st r st' Hrun. unfold bind in Hrun.
  destruct (c st) as [[a | err | p] st1] eqn:Hcst.
  - transitivity st1; [by eapply Hc | by eapply Hk].
  - simplify_eq. by eapply Hc.
  - simplify_eq. by eapply Hc.
Qed.

End Preservation.

(** ** The fields of a span, one decoder each *)

Section Fields.
Implicit Types (dictionary : list string) (st : SpanSt).

#[local] Instance sameBut_preorder j : PreOrder (sameBut j).
Proof.
  split.
  - by intros st i Hi.
  - intros st1 st2 st3 H12 H23 i Hi. by rewrite H23, H12.
Qed.















End Fields.

(** ** A span decode that fails part-way *)

Section PartialDecode.
Implicit Types (dictionary : list string) (st : SpanSt).

(** Past a header that declares 12 elements, the span decoder is its twelve
    field decoders in a row. *)
Lemma Span_DecodeMsgArray_fields dictionary rest h z0 :
  callMethod (Span_DecodeMsgArray dictionary)
    (mkSpanSt (WArrayHeader 12 :: rest) h z0)
  = (outcome (runFields (fieldDecoders dictionary) (mkSpanSt rest h z0)).1.2,
     (runFields (fieldDecoders dictionary) (mkSpanSt rest h z0)).2).
Proof. rewrite <- callMethod_seqStmts. reflexivity. Qed.









End PartialDecode.

(** ** Maps: emptied in place, written entry by entry *)

Section Maps.
Context {V : Type}.
Implicit Types (h : gmap loc (gmap string V)) (m : gmap string V).

(** Deleting from [m0] each key met while ranging over [m]. *)
Lemma delete_range_lookup m0 m (k : string) :
  map_fold (fun key _ acc => delete key acc) m0 m !! k
  = match m !! k with Some _ => None | None => m0 !! k end.
Proof.
  apply (map_fold_weak_ind
           (fun r m' => r !! k = match m' !! k with
                                 | Some _ => None
                                 | None => m0 !! k
                                 end)).
  - by rewrite lookup_empty.
  - intros i x m' r Hi IH. destruct (decide (i = k)) as [-> | Hne].
    + by rewrite lookup_delete_eq, lookup_insert_eq.
    + by rewrite lookup_delete_ne, lookup_insert_ne.
Qed.

(** The loop [for key := range m { delete(m, key) }] leaves the map object
    empty, and the object is the same one. *)
Lemma deref_clearMap h l : deref (clearMap h l) l = ∅.
Proof.
  unfold clearMap, deref. rewrite lookup_insert_eq. simpl.
  apply map_eq. intros k. rewrite delete_range_lookup, lookup_empty.
  by destruct (default ∅ (h !! l) !! k).
Qed.

Lemma clearMap_other h l l' : l' <> l -> clearMap h l !! l' = h !! l'.
Proof. intros Hne. unfold clearMap. by rewrite lookup_insert_ne. Qed.

Lemma deref_makeMap h hint :
  deref (makeMap h hint).2 (makeMap h hint).1 = ∅
  /\ ((makeMap h hint).1 ∉ dom h)
  /\ forall l', l' <> (makeMap h hint).1 -> (makeMap h hint).2 !! l' = h !! l'.
Proof.
  unfold makeMap, deref. simpl. rewrite lookup_insert_eq.
  split; [done|]. split; [apply is_fresh|].
  intros l' Hne. by rewrite lookup_insert_ne.
Qed.

Lemma lenMap_zero h l : lenMap h (Some l) <= 0 -> deref h l = ∅.
Proof.
  unfold lenMap. intros Hlen. apply map_size_empty_inv. lia.
Qed.

Lemma writeEntries_snoc m (kvs : list (string * V)) k v :
  writeEntries m (kvs ++ [(k, v)]) = <[k := v]> (writeEntries m kvs).
Proof. unfold writeEntries. by rewrite foldl_app. Qed.

Lemma writeEntries_cons m (kvs : list (string * V)) k v :
  writeEntries m ((k, v) :: kvs) = writeEntries (<[k := v]> m) kvs.
Proof. reflexivity. Qed.

(** The keys of the written map are the keys written and those of the map
    written on. *)
Lemma writeEntries_lookup_is_Some m (kvs : list (string * V)) k :
  is_Some (writeEntries m kvs !! k) <-> k ∈ kvs.*1 \/ is_Some (m !! k).
Proof.
  revert m. induction kvs as [|[k' v'] kvs IH]; intros m.
  - simpl. split; [by right|]. intros [Hin | Hm]; [|done].
    by apply elem_of_nil in Hin.
  - rewrite writeEntries_cons, IH. simpl. rewrite elem_of_cons.
    destruct (decide (k' = k)) as [-> | Hne].
    + rewrite lookup_insert_eq. split; [intros _; left; by left|].
      intros _. right. by eexists.
    + rewrite lookup_insert_ne by done. split.
      * intros [Hin | Hm]; [left; by right | by right].
      * intros [[Heq | Hin] | Hm]; [congruence | by left | by right].
Qed.

End Maps.

(** ** Meta and Metrics *)

Section MetaMetrics.
Implicit Types (dictionary : list string) (st : SpanSt).

Lemma setMeta_id (z0 : Span) m : Meta z0 = m -> z0 = setMeta m z0.
Proof. intros <-. by destruct z0. Qed.

Lemma setMetrics_id (z0 : Span) m : Metrics z0 = m -> z0 = setMetrics m z0.
Proof. intros <-. by destruct z0. Qed.

(** A successful run of the Meta loop: the reader went over [n] entries,
    which were written in wire order into the map object, and nothing else
    changed. *)
Lemma metaLoop_success dictionary n st st' l :
  Meta (z st) = Some l ->
  metaLoop dictionary n st = (Next tt, st') ->
  exists kvs,
    wireMeta dictionary n (dc st) = Some (kvs, dc st')
    /\ z st' = z st
    /\ numMaps (hp st') = numMaps (hp st)
    /\ deref (strMaps (hp st')) l
       = writeEntries (deref (strMaps (hp st)) l) kvs
    /\ forall l', l' <> l ->
         strMaps (hp st') !! l' = strMaps (hp st) !! l'.
Proof.
  revert st. induction n as [|n IH]; intros st Hl Hrun; simpl in *.
  - unfold next in Hrun. simplify_eq. by exists [].
  - unfold bind, readDict, check, return_, next in Hrun. simpl in Hrun.
    destruct (parseStringDict (dc st) dictionary)
      as [[[k [e|]] | p] dc1]; simpl in Hrun; try done.
    destruct (parseStringDict dc1 dictionary)
      as [[[v [e|]] | p] dc2]; simpl in Hrun; try done.
    unfold assignMeta, mapAssign in Hrun. simpl in Hrun.
    rewrite Hl in Hrun. simpl in Hrun.
    apply IH in Hrun as (kvs & Hwire & Hz & Hnum & Hobj & Hother); [|done].
    simpl in *. rewrite Hwire. exists ((k, v) :: kvs).
    split; [done|]. split; [done|]. split; [done|]. split.
    + rewrite Hobj, writeEntries_cons. unfold deref at 1.
      by rewrite lookup_insert_eq.
    + intros l' Hne. rewrite Hother by done. by rewrite lookup_insert_ne.
Qed.

Lemma metricsLoop_success dictionary n st st' l :
  Metrics (z st) = Some l ->
  metricsLoop dictionary n st = (Next tt, st') ->
  exists kvs,
    wireMetrics dictionary n (dc st) = Some (kvs, dc st')
    /\ z st' = z st
    /\ strMaps (hp st') = strMaps (hp st)
    /\ deref (numMaps (hp st')) l
       = writeEntries (deref (numMaps (hp st)) l) kvs
    /\ forall l', l' <> l ->
         numMaps (hp st') !! l' = numMaps (hp st) !! l'.
Proof.
  revert st. induction n as [|n IH]; intros st Hl Hrun; simpl in *.
  - unfold next in Hrun. simplify_eq. by exists [].
  - unfold bind, readDict, read, check, return_, next in Hrun.
    simpl in Hrun.
    destruct (parseStringDict (dc st) dictionary)
      as [[[k [e|]] | p] dc1]; simpl in Hrun; try done.
    destruct (parseFloat64 dc1) as [[v [e|]] dc2]; simpl in Hrun; try done.
    unfold assignMetrics, mapAssign in Hrun. simpl in Hrun.
    rewrite Hl in Hrun. simpl in Hrun.
    apply IH in Hrun as (kvs & Hwire & Hz & Hstr & Hobj & Hother); [|done].
    simpl in *. rewrite Hwire. exists ((k, v) :: kvs).
    split; [done|]. split; [done|]. split; [done|]. split.
    + rewrite Hobj, writeEntries_cons. unfold deref at 1.
      by rewrite lookup_insert_eq.
    + intros l' Hne. rewrite Hother by done. by rewrite lookup_insert_ne.
Qed.

(** Field 9 decoded without error. *)
Lemma decodeMeta_success dictionary st st' :
  decodeMeta dictionary st = (Next tt, st') ->
  exists n dc1 kvs,
    dc st = WMapHeader n :: dc1
    /\ wireMeta dictionary (Z.to_nat n) dc1 = Some (kvs, dc st')
    /\ z st' = setMeta (Meta (z st')) (z st)
    /\ numMaps (hp st') = numMaps (hp st)
    /\ Meta (z st') = refAfter (strMaps (hp st)) (Meta (z st)) n
    /\ entries (strMaps (hp st')) (Meta (z st')) = writeEntries ∅ kvs
    /\ forall l', Meta (z st') <> Some l' ->
         strMaps (hp st') !! l' = strMaps (hp st) !! l'.
Proof.
  unfold decodeMeta, bind, read, check, get, return_, next. simpl.
  destruct (dc st) as [|w dc1] eqn:Hdc; [done|].
  destruct w; try done. simpl. intros Hrun. exists sz, dc1.
  destruct st as [dc0 h0 z0]. simpl in *. subst dc0.
  destruct (Meta z0) as [l|] eqn:HM; simpl in Hrun.
  - (* a map is there: emptied if it has entries, then written *)
    destruct (Z.ltb_spec 0 (Z.of_nat (size (deref (strMaps h0) l))))
      as [Hlen | Hlen].
    + unfold clearMeta in Hrun. simpl in Hrun. rewrite HM in Hrun.
      apply metaLoop_success with (l := l) in Hrun
          as (kvs & Hwire & Hz & Hnum & Hobj & Hother); [|done].
      simpl in *. exists kvs. rewrite Hz, HM. simpl.
      split; [done|]. split; [done|]. split; [by apply setMeta_id|].
      split; [done|]. split; [done|].
      split; [by rewrite Hobj, deref_clearMap|].
      intros l' Hne. rewrite Hother by congruence.
      apply clearMap_other. congruence.
    + unfold next in Hrun.
      apply metaLoop_success with (l := l) in Hrun
          as (kvs & Hwire & Hz & Hnum & Hobj & Hother); [|done].
      simpl in *. exists kvs. rewrite Hz, HM. simpl.
      split; [done|]. split; [done|]. split; [by apply setMeta_id|].
      split; [done|]. split; [done|].
      split; [by rewrite Hobj, (lenMap_zero (strMaps h0) l)|].
      intros l' Hne. apply Hother. congruence.
  - destruct (Z.ltb_spec 0 sz) as [Hsz | Hsz]; simpl in Hrun.
    + (* no map, entries to come: a new object *)
      unfold makeMeta in Hrun. simpl in Hrun.
      destruct (deref_makeMap (strMaps h0) sz) as (Hnew & Hfresh & Hrest).
      apply metaLoop_success with (l := fresh (dom (strMaps h0))) in Hrun
          as (kvs & Hwire & Hz & Hnum & Hobj & Hother); [|done].
      simpl in *. exists kvs. rewrite Hz. simpl.
      split; [done|]. split; [done|]. split; [done|]. split; [done|].
      split; [by rewrite (proj2 (Z.ltb_lt 0 sz) Hsz)|].
      split; [rewrite <- Hnew; exact Hobj|].
      intros l' Hne. rewrite Hother by (intros ->; by apply Hne).
      apply Hrest. intros ->. by apply Hne.
    + (* no map, no entry: the field stays nil *)
      replace (Z.to_nat sz) with 0%nat in * by lia. simpl in Hrun.
      unfold next in Hrun. simplify_eq. exists []. simpl. rewrite HM.
      simpl. rewrite (proj2 (Z.ltb_ge 0 sz) Hsz).
      split; [done|]. split; [done|].
      split; [by apply setMeta_id|]. done.
Qed.

(** Field 10 decoded without error. *)
Lemma decodeMetrics_success dictionary st st' :
  decodeMetrics dictionary st = (Next tt, st') ->
  exists n dc1 kvs,
    dc st = WMapHeader n :: dc1
    /\ wireMetrics dictionary (Z.to_nat n) dc1 = Some (kvs, dc st')
    /\ z st' = setMetrics (Metrics (z st')) (z st)
    /\ strMaps (hp st') = strMaps (hp st)
    /\ Metrics (z st') = refAfter (numMaps (hp st)) (Metrics (z st)) n
    /\ entries (numMaps (hp st')) (Metrics (z st')) = writeEntries ∅ kvs
    /\ forall l', Metrics (z st') <> Some l' ->
         numMaps (hp st') !! l' = numMaps (hp st) !! l'.
Proof.
  unfold decodeMetrics, bind, read, check, get, return_, next. simpl.
  destruct (dc st) as [|w dc1] eqn:Hdc; [done|].
  destruct w; try done. simpl. intros Hrun. exists sz, dc1.
  destruct st as [dc0 h0 z0]. simpl in *. subst dc0.
  destruct (Metrics z0) as [l|] eqn:HM; simpl in Hrun.
  - destruct (Z.ltb_spec 0 (Z.of_nat (size (deref (numMaps h0) l))))
      as [Hlen | Hlen].
    + unfold clearMetrics in Hrun. simpl in Hrun. rewrite HM in Hrun.
      apply metricsLoop_success with (l := l) in Hrun
          as (kvs & Hwire & Hz & Hstr & Hobj & Hother); [|done].
      simpl in *. exists kvs. rewrite Hz, HM. simpl.
      split; [done|]. split; [done|]. split; [by apply setMetrics_id|].
      split; [done|]. split; [done|].
      split; [by rewrite Hobj, deref_clearMap|].
      intros l' Hne. rewrite Hother by congruence.
      apply clearMap_other. congruence.
    + unfold next in Hrun.
      apply metricsLoop_success with (l := l) in Hrun
          as (kvs & Hwire & Hz & Hstr & Hobj & Hother); [|done].
      simpl in *. exists kvs. rewrite Hz, HM. simpl.
      split; [done|]. split; [done|]. split; [by apply setMetrics_id|].
      split; [done|]. split; [done|].
      split; [by rewrite Hobj, (lenMap_zero (numMaps h0) l)|].
      intros l' Hne. apply Hother. congruence.
  - destruct (Z.ltb_spec 0 sz) as [Hsz | Hsz]; simpl in Hrun.
    + unfold makeMetrics in Hrun. simpl in Hrun.
      destruct (deref_makeMap (numMaps h0) sz) as (Hnew & Hfresh & Hrest).
      apply metricsLoop_success with (l := fresh (dom (numMaps h0))) in Hrun
          as (kvs & Hwire & Hz & Hstr & Hobj & Hother); [|done].
      simpl in *. exists kvs. rewrite Hz. simpl.
      split; [done|]. split; [done|]. split; [done|]. split; [done|].
      split; [by rewrite (proj2 (Z.ltb_lt 0 sz) Hsz)|].
      split; [rewrite <- Hnew; exact Hobj|].
      intros l' Hne. rewrite Hother by (intros ->; by apply Hne).
      apply Hrest. intros ->. by apply Hne.
    + replace (Z.to_nat sz) with 0%nat in * by lia. simpl in Hrun.
      unfold next in Hrun. simplify_eq. exists []. simpl. rewrite HM.
      simpl. rewrite (proj2 (Z.ltb_ge 0 sz) Hsz).
      split; [done|]. split; [done|].
      split; [by apply setMetrics_id|]. done.
Qed.

End MetaMetrics.

(** ** A span decode that succeeds *)

Section NoNilReturn.
Context {St : Type}.

Lemma returnsError_bind {A B} (c : Stmt St A) (k : A -> Stmt St B) :
  returnsError c -> (forall a, returnsError (k a)) -> returnsError (bind c k).
Proof.
  intros Hc Hk st err st' Hrun. unfold bind in Hrun.
  destruct (c st) as [[a | err1 | p] st1] eqn:Hcst; simplify_eq.
  - by eapply Hk.
  - by eapply Hc.
Qed.

Lemma returnsError_check err : returnsError (@check St err).
Proof.
  destruct err; intros st err' st' Hrun;
    unfold check, return_, next in Hrun; by simplify_eq.
Qed.

Lemma returnsError_no_return {A} (c : Stmt St A) :
  (forall st err st', c st <> (Return err, st')) -> returnsError c.
Proof. intros Hc st err st' Hrun. by destruct (Hc st err st'). Qed.

(** A run of statements that return only with an error, which ended like
    a method that returns [nil]: every statement went on. *)
Lemma runFields_all_next (fs : list (Stmt St unit)) (st : St) k r st' :
  (forall f, f ∈ fs -> returnsError f) ->
  runFields fs st = (k, r, st') ->
  outcome r = Normal None ->
  r = Next tt.
Proof.
  revert st k. induction fs as [|f fs IH]; intros st k Hfs Hrun Hout;
    simpl in Hrun.
  - by simplify_eq.
  - destruct (f st) as [[[] | err | p] st1] eqn:Hf.
    + destruct (runFields fs st1) as [[k1 r1] st2] eqn:Hrest. simplify_eq.
      eapply IH; [|done|done]. intros g Hg. apply Hfs. by right.
    + simplify_eq. simpl in Hout.
      destruct (Hfs f ltac:(by left) _ _ _ Hf) as [e He]. congruence.
    + by simplify_eq.
Qed.

Lemma runFields_next_length (fs : list (Stmt St unit)) (st : St) k u st' :
  runFields fs st = (k, Next u, st') -> k = length fs.
Proof.
  revert st k. induction fs as [|f fs IH]; intros st k Hrun; simpl in Hrun.
  - by simplify_eq.
  - destruct (f st) as [[[] | err | p] st1]; [|done|done].
    destruct (runFields fs st1) as [[k1 r1] st2] eqn:Hrest. simplify_eq.
    simpl. f_equal. by eapply IH.
Qed.

Lemma runFields_cons_next (f : Stmt St unit) fs (st : St) k st' :
  runFields (f :: fs) st = (k, Next tt, st') ->
  exists st1 k1, f st = (Next tt, st1) /\ runFields fs st1 = (k1, Next tt, st').
Proof.
  simpl. destruct (f st) as [[[] | err | p] st1]; [|done|done].
  destruct (runFields fs st1) as [[k1 r1] st2] eqn:Hrest. intros Hrun.
  simplify_eq. by exists st1, k1.
Qed.

End NoNilReturn.

Section Success.
Implicit Types (dictionary : list string) (st : SpanSt).

Ltac no_return :=
  apply returnsError_no_return;
  let st := fresh "st" in let err := fresh "err" in
  let st' := fresh "st'" in let Hrun := fresh "Hrun" in
  intros st err st' Hrun;
  unfold read, readDict, store, modify, get, next, makeMeta, clearMeta,
    assignMeta, makeMetrics, clearMetrics, assignMetrics, makeMap, mapAssign
    in Hrun;
  simpl in Hrun; repeat case_match; by simplify_eq.

Ltac returnsError_step :=
  first
    [ apply returnsError_bind; [|intros ?]
    | apply returnsError_check
    | match goal with |- returnsError (match ?x with _ => _ end) =>
        destruct x end
    | no_return ].

Lemma metaLoop_returnsError dictionary n :
  returnsError (metaLoop dictionary n).
Proof.
  induction n as [|n IH]; simpl; repeat first [apply IH | returnsError_step].
Qed.

Lemma metricsLoop_returnsError dictionary n :
  returnsError (metricsLoop dictionary n).
Proof.
  induction n as [|n IH]; simpl; repeat first [apply IH | returnsError_step].
Qed.

Lemma fieldDecoders_returnsError dictionary f :
  f ∈ fieldDecoders dictionary -> returnsError f.
Proof.
  unfold fieldDecoders. rewrite !elem_of_cons, elem_of_nil.
  unfold decodeService, decodeName, decodeResource, decodeTraceID,
    decodeSpanID, decodeParentID, decodeStart, decodeDuration, decodeError,
    decodeMeta, decodeMetrics, decodeType.
  intros Hf. repeat destruct Hf as [-> | Hf]; try done;
    repeat first [ apply metaLoop_returnsError
                 | apply metricsLoop_returnsError
                 | returnsError_step ].
Qed.

(** A scalar field read without error took one value off the wire. *)
Lemma parseStringDict_consumes dc dictionary s dc' :
  parseStringDict dc dictionary = (Normal (s, None), dc') ->
  exists w, dc = w :: dc'.
Proof.
  unfold parseStringDict, ReadInt, ReadInt64.
  destruct dc as [|w dc]; intros Hp; repeat case_match; simplify_eq;
    by eexists.
Qed.

Lemma parseUint64_consumes dc v dc' :
  parseUint64 dc = (v, None, dc') -> exists w, dc = w :: dc'.
Proof.
  unfold parseUint64. destruct dc as [|[] dc]; simpl; intros Hp;
    repeat case_match; simplify_eq; by eexists.
Qed.

Lemma parseInt64_consumes dc v dc' :
  parseInt64 dc = (v, None, dc') -> exists w, dc = w :: dc'.
Proof.
  unfold parseInt64, castInt64. destruct dc as [|[] dc]; simpl; intros Hp;
    repeat case_match; simplify_eq; by eexists.
Qed.

Lemma parseInt32_consumes dc v dc' :
  parseInt32 dc = (v, None, dc') -> exists w, dc = w :: dc'.
Proof.
  unfold parseInt32, castInt32, ReadInt32, ReadUint32.
  destruct dc as [|[] dc]; simpl; intros Hp;
    repeat case_match; simplify_eq; by eexists.
Qed.

Ltac scalar_success lem :=
  let Hrun := fresh "Hrun" in
  intros Hrun;
  unfold decodeService, decodeName, decodeResource, decodeTraceID,
    decodeSpanID, decodeParentID, decodeStart, decodeDuration, decodeError,
    decodeType, bind, read, readDict, store, modify, check, return_, next
    in Hrun;
  simpl in Hrun;
  match type of Hrun with
  | context [parseStringDict ?d ?dict] =>
      let Hp := fresh "Hparse" in
      destruct (parseStringDict d dict) as [[[? [?|]] | ?] ?] eqn:Hp;
      simplify_eq; split; [by eapply parseStringDict_consumes | done]
  | context [?f (dc ?st)] =>
      let Hp := fresh "Hparse" in
      destruct (f (dc st)) as [[? [?|]] ?] eqn:Hp;
      simplify_eq; split; [by eapply lem | done]
  end.

Lemma decodeService_success dictionary st st' :
  decodeService dictionary st = (Next tt, st') -> scalarStep st st'.
Proof. scalar_success parseUint64_consumes. Qed.

Lemma decodeName_success dictionary st st' :
  decodeName dictionary st = (Next tt, st') -> scalarStep st st'.
Proof. scalar_success parseUint64_consumes. Qed.

Lemma decodeResource_success dictionary st st' :
  decodeResource dictionary st = (Next tt, st') -> scalarStep st st'.
Proof. scalar_success parseUint64_consumes. Qed.

Lemma decodeTraceID_success st st' :
  decodeTraceID st = (Next tt, st') -> scalarStep st st'.
Proof. scalar_success parseUint64_consumes. Qed.

Lemma decodeSpanID_success st st' :
  decodeSpanID st = (Next tt, st') -> scalarStep st st'.
Proof. scalar_success parseUint64_consumes. Qed.

Lemma decodeParentID_success st st' :
  decodeParentID st = (Next tt, st') -> scalarStep st st'.
Proof. scalar_success parseUint64_consumes. Qed.

Lemma decodeStart_success st st' :
  decodeStart st = (Next tt, st') -> scalarStep st st'.
Proof. scalar_success parseInt64_consumes. Qed.

Lemma decodeDuration_success st st' :
  decodeDuration st = (Next tt, st') -> scalarStep st st'.
Proof. scalar_success parseInt64_consumes. Qed.

Lemma decodeError_success st st' :
  decodeError st = (Next tt, st') -> scalarStep st st'.
Proof. scalar_success parseInt32_consumes. Qed.

Lemma decodeType_success dictionary st st' :
  decodeType dictionary st = (Next tt, st') -> scalarStep st st'.
Proof. scalar_success parseUint64_consumes. Qed.

(** A span decode without error began at a header that declares 12
    elements, and each of the twelve field decoders went on. *)
Lemma Span_DecodeMsgArray_success dictionary dc0 h z0 st' :
  callMethod (Span_DecodeMsgArray dictionary) (mkSpanSt dc0 h z0)
  = (Normal None, st') ->
  exists rest,
    dc0 = WArrayHeader 12 :: rest /\
    runFields (fieldDecoders dictionary) (mkSpanSt rest h z0)
    = (12%nat, Next tt, st').
Proof.
  intros Hcall.
  assert (Hhdr : exists rest, dc0 = WArrayHeader 12 :: rest).
  { unfold Span_DecodeMsgArray, callMethod, bind at 1 2 3, read, check
      in Hcall.
    destruct dc0 as [|w rest]; [done|].
    destruct w; try done. simpl in Hcall.
    destruct (Z.eqb_spec sz spanPropertyCount) as [-> | Hne]; [|done].
    by exists rest. }
  destruct Hhdr as [rest ->]. exists rest. split; [done|].
  rewrite Span_DecodeMsgArray_fields in Hcall.
  destruct (runFields (fieldDecoders dictionary) (mkSpanSt rest h z0))
    as [[k r] st1] eqn:Hrun.
  simpl in Hcall. injection Hcall as Hout ->.
  pose proof (runFields_all_next _ _ _ _ _
                (fieldDecoders_returnsError dictionary) Hrun Hout) as ->.
  f_equal. f_equal. by apply runFields_next_length in Hrun.
Qed.

(** C5, amended. A span decode without error, into a span [z0] new or
    recycled.  Ten values into the span record the wire has the count [n]
    and the entries [kvs] of Meta, then the count [m] and the entries [nvs]
    of Metrics.  After the decode the Meta map holds the entries [kvs] and
    nothing else, so no key of what it held before unless the payload has
    it; likewise Metrics and [nvs].  A map field that held a map, with
    entries or empty, holds the same map object, emptied in place; a nil
    map field gets a new map object if the count on the wire is above 0 and
    stays nil if the count is 0.  No other map object of the heap is
    touched. *)
Theorem Span_DecodeMsgArray_maps dictionary dc0 h z0 st' :
  callMethod (Span_DecodeMsgArray dictionary) (mkSpanSt dc0 h z0)
  = (Normal None, st') ->
  exists n dcA kvs m dcB nvs dcC,
    drop 10 dc0 = WMapHeader n :: dcA
    /\ wireMeta dictionary (Z.to_nat n) dcA = Some (kvs, WMapHeader m :: dcB)
    /\ wireMetrics dictionary (Z.to_nat m) dcB = Some (nvs, dcC)
    /\ entries (strMaps (hp st')) (Meta (z st')) = writeEntries ∅ kvs
    /\ entries (numMaps (hp st')) (Metrics (z st')) = writeEntries ∅ nvs
    /\ (forall k, is_Some (entries (strMaps (hp st')) (Meta (z st')) !! k)
                  <-> k ∈ kvs.*1)
    /\ (forall k, is_Some (entries (numMaps (hp st')) (Metrics (z st')) !! k)
                  <-> k ∈ nvs.*1)
    /\ Meta (z st') = refAfter (strMaps h) (Meta z0) n
    /\ Metrics (z st') = refAfter (numMaps h) (Metrics z0) m
    /\ (forall l', Meta (z st') <> Some l' ->
          strMaps (hp st') !! l' = strMaps h !! l')
    /\ (forall l', Metrics (z st') <> Some l' ->
          numMaps (hp st') !! l' = numMaps h !! l').
Proof.
  intros Hcall.
  apply Span_DecodeMsgArray_success in Hcall as (rest & -> & Hrun).
  unfold fieldDecoders in Hrun.
  apply runFields_cons_next in Hrun as (st1 & ? & H0 & Hrun).
  apply runFields_cons_next in Hrun as (st2 & ? & H1 & Hrun).
  apply runFields_cons_next in Hrun as (st3 & ? & H2 & Hrun).
  apply runFields_cons_next in Hrun as (st4 & ? & H3 & Hrun).
  apply runFields_cons_next in Hrun as (st5 & ? & H4 & Hrun).
  apply runFields_cons_next in Hrun as (st6 & ? & H5 & Hrun).
  apply runFields_cons_next in Hrun as (st7 & ? & H6 & Hrun).
  apply runFields_cons_next in Hrun as (st8 & ? & H7 & Hrun).
  apply runFields_cons_next in Hrun as (st9 & ? & H8 & Hrun).
  apply runFields_cons_next in Hrun as (st10 & ? & H9 & Hrun).
  apply runFields_cons_next in Hrun as (st11 & ? & H10 & Hrun).
  apply runFields_cons_next in Hrun as (st12 & ? & H11 & Hrun).
  simpl in Hrun. simplify_eq.
  apply decodeService_success in H0 as ([w0 Hd0] & Hh0 & HM0 & HN0).
  apply decodeName_success in H1 as ([w1 Hd1] & Hh1 & HM1 & HN1).
  apply decodeResource_success in H2 as ([w2 Hd2] & Hh2 & HM2 & HN2).
  apply decodeTraceID_success in H3 as ([w3 Hd3] & Hh3 & HM3 & HN3).
  apply decodeSpanID_success in H4 as ([w4 Hd4] & Hh4 & HM4 & HN4).
  apply decodeParentID_success in H5 as ([w5 Hd5] & Hh5 & HM5 & HN5).
  apply decodeStart_success in H6 as ([w6 Hd6] & Hh6 & HM6 & HN6).
  apply decodeDuration_success in H7 as ([w7 Hd7] & Hh7 & HM7 & HN7).
  apply decodeError_success in H8 as ([w8 Hd8] & Hh8 & HM8 & HN8).
  apply decodeType_success in H11 as ([w11 Hd11] & Hh11 & HM11 & HN11).
  apply decodeMeta_success in H9
    as (n & dcA & kvs & HdA & HwA & HzA & HnumA & HrefA & HentA & HothA).
  apply decodeMetrics_success in H10
    as (m & dcB & nvs & HdB & HwB & HzB & HstrB & HrefB & HentB & HothB).
  simpl in Hd0, Hh0, HM0, HN0.
  assert (Hh9 : hp st9 = h) by congruence.
  assert (HM9 : Meta (z st9) = Meta z0) by congruence.
  assert (HN9 : Metrics (z st9) = Metrics z0) by congruence.
  assert (HMB : Meta (z st11) = Meta (z st10)) by (by rewrite HzB).
  assert (HNA : Metrics (z st10) = Metrics (z st9)) by (by rewrite HzA).
  exists n, dcA, kvs, m, dcB, nvs, (dc st11).
  rewrite HM11, HN11, Hh11, HstrB, HMB.
  split; [by rewrite Hd0, Hd1, Hd2, Hd3, Hd4, Hd5, Hd6, Hd7, Hd8|].
  split; [by rewrite <- HdB|]. split; [done|]. split; [done|].
  split; [done|].
  split.
  { intros k. rewrite HentA, writeEntries_lookup_is_Some, lookup_empty.
    split; [intros [Hin | [? ?]]; done | by left]. }
  split.
  { intros k. rewrite HentB, writeEntries_lookup_is_Some, lookup_empty.
    split; [intros [Hin | [? ?]]; done | by left]. }
  split; [by rewrite HrefA, HM9, Hh9|].
  split; [by rewrite HrefB, HNA, HN9, HnumA, Hh9|].
  split.
  - intros l' Hne. rewrite HothA by done. by rewrite Hh9.
  - intros l' Hne. rewrite HothB by done. by rewrite HnumA, Hh9.
Qed.

Lemma Span_DecodeMsgArray_maps_witness :
  callMethod (Span_DecodeMsgArray reuseDict)
    (mkSpanSt reusePayload reuseHeap reuseSpan)
  = (Normal None,
     mkSpanSt []
       (mkHeap {[ 1%positive := {[ "k" := "v" ]}%string ]} ∅)
       (mkSpan "web" "web" "web" 1 2 0 1000 500 0 (Some 1%positive) None
          "web"))
  /\ entries {[ 1%positive := {[ "k" := "v" ]}%string ]} (Some 1%positive)
     = writeEntries ∅ [("k", "v")]%string.
Proof.
  assert (Hcall :
    callMethod (Span_DecodeMsgArray reuseDict)
      (mkSpanSt reusePayload reuseHeap reuseSpan)
    = (Normal None,
       mkSpanSt []
         (mkHeap {[ 1%positive := {[ "k" := "v" ]}%string ]} ∅)
         (mkSpan "web" "web" "web" 1 2 0 1000 500 0 (Some 1%positive) None
            "web"))) by (vm_compute; reflexivity).
  split; [exact Hcall|].
  destruct (Span_DecodeMsgArray_maps _ _ _ _ _ Hcall)
    as (n & dcA & kvs & m & dcB & nvs & dcC & Hdrop & HwA & _ & Hent & _).
  simpl in Hdrop. injection Hdrop as <- <-.
  vm_compute in HwA. injection HwA as <- _ _.
  exact Hent.
Defined.

(** C5, as stated, fails in its last part: a new span, whose Meta is nil,
    decoded from a record that declares no Meta entry, has a nil Meta after
    the decode; no map was allocated. *)
Lemma unset_map_stays_nil : ~ unset_map_is_allocated.
Proof.
  intros Hclaim.
  destruct (Hclaim ["web"%string]
              [ WArrayHeader 12; WInt 0; WInt 0; WInt 0; WInt 1; WInt 2;
                WInt 0; WInt 1000; WInt 500; WInt 0; WMapHeader 0;
                WMapHeader 0; WInt 0 ]
              (mkHeap ∅ ∅) newSpan
              (mkSpanSt [] (mkHeap ∅ ∅)
                 (mkSpan "web" "web" "web" 1 2 0 1000 500 0 None None "web"))
              eq_refl eq_refl) as (l & Hl & _).
  discriminate Hl.
Qed.

End Success.

(** ** The end-to-end example, into any destination *)

Section Example.

Lemma decodeMeta_empty dictionary rest h sp :
  exists sm,
    decodeMeta dictionary (mkSpanSt (WMapHeader 0 :: rest) h sp)
    = (Next tt, mkSpanSt rest (mkHeap sm (numMaps h)) sp)
    /\ lenMap sm (Meta sp) = 0.
Proof.
  destruct h as [sm nm].
  unfold decodeMeta, bind, read, check, get, next. simpl.
  destruct (Meta sp) as [l|] eqn:HM; simpl.
  - destruct (Z.ltb_spec 0 (Z.of_nat (size (deref sm l)))) as [Hlen | Hlen].
    + unfold clearMeta. simpl. rewrite HM. exists (clearMap sm l).
      split; [done|]. by rewrite deref_clearMap, map_size_empty.
    + exists sm. split; [done|]. lia.
  - by exists sm.
Qed.

Lemma decodeMetrics_empty dictionary rest h sp :
  exists nm,
    decodeMetrics dictionary (mkSpanSt (WMapHeader 0 :: rest) h sp)
    = (Next tt, mkSpanSt rest (mkHeap (strMaps h) nm) sp)
    /\ lenMap nm (Metrics sp) = 0.
Proof.
  destruct h as [sm nm].
  unfold decodeMetrics, bind, read, check, get, next. simpl.
  destruct (Metrics sp) as [l|] eqn:HM; simpl.
  - destruct (Z.ltb_spec 0 (Z.of_nat (size (deref nm l)))) as [Hlen | Hlen].
    + unfold clearMetrics. simpl. rewrite HM. exists (clearMap nm l).
      split; [done|]. by rewrite deref_clearMap, map_size_empty.
    + exists nm. split; [done|]. lia.
  - by exists nm.
Qed.

(** A number that fits the signed type decodes to itself, typed as signed
    or as unsigned on the wire. *)
Lemma parseUint64_wireInt b n rest :
  0 <= n <= MaxInt64 -> parseUint64 (wireInt b n :: rest) = (n, None, rest).
Proof.
  intros Hn. destruct b; [done|]. unfold parseUint64. simpl.
  rewrite to_uint64_nonneg; [done| |lia].
  unfold is_int64, MinInt64. lia.
Qed.

Lemma parseInt64_wireInt b n rest :
  0 <= n <= MaxInt64 -> parseInt64 (wireInt b n :: rest) = (n, None, rest).
Proof.
  intros Hn. destruct b; [|done]. rewrite parseInt64_unsigned.
  destruct (Z.ltb_spec MaxInt64 n); [lia|].
  rewrite to_int64_id; [done|]. unfold is_int64, MinInt64. lia.
Qed.

Lemma parseInt32_wireInt b n rest :
  0 <= n <= MaxInt32 -> parseInt32 (wireInt b n :: rest) = (n, None, rest).
Proof.
  intros Hn.
  assert (Hr : is_int32 n) by (unfold is_int32, MinInt32; lia).
  destruct b.
  - rewrite parseInt32_unsigned by lia.
    destruct (Z.ltb_spec MaxUint32 n);
      [unfold MaxUint32, MaxInt32 in *; lia|].
    destruct (Z.ltb_spec MaxInt32 n); [lia|]. by rewrite to_int32_id.
  - unfold parseInt32, ReadInt32. simpl.
    destruct (Z.ltb_spec MaxInt32 n); [lia|].
    destruct (Z.ltb_spec n MinInt32); [unfold MinInt32 in *; lia|].
    simpl. by rewrite to_int32_id.
Qed.

Lemma callMethod_seq_next {St} (f : Stmt St unit) fs k (st st1 : St) :
  f st = (Next tt, st1) ->
  callMethod (seqStmts (f :: fs) k) st = callMethod (seqStmts fs k) st1.
Proof. intros Hf. unfold callMethod. simpl. unfold bind. by rewrite Hf. Qed.

Lemma Span_DecodeMsgArray_seq dictionary rest h z0 :
  callMethod (Span_DecodeMsgArray dictionary)
    (mkSpanSt (WArrayHeader 12 :: rest) h z0)
  = callMethod (seqStmts (fieldDecoders dictionary) (return_ None))
      (mkSpanSt rest h z0).
Proof. reflexivity. Qed.

Ltac numeric_field lem :=
  unfold decodeTraceID, decodeSpanID, decodeParentID, decodeStart,
    decodeDuration, decodeError, bind, read, store, modify, check, next;
  simpl; rewrite lem; [reflexivity | unfold MaxInt64, MaxInt32; lia].

(** The example record decoded into any span, over any heap. *)
Lemma Span_DecodeMsgArray_example (b3 b4 b5 b6 b7 b8 : bool) rest h sp :
  exists h',
    callMethod (Span_DecodeMsgArray ["web"; "GET /"]%string)
      (mkSpanSt (exampleRecord b3 b4 b5 b6 b7 b8 ++ rest) h sp)
    = (Normal None,
       mkSpanSt rest h'
         (mkSpan "web" "GET /" "web" 1 2 0 1000 500 0
            (Meta sp) (Metrics sp) "GET /"))
    /\ lenMap (strMaps h') (Meta sp) = 0
    /\ lenMap (numMaps h') (Metrics sp) = 0.
Proof.
  unfold exampleRecord. simpl app. rewrite Span_DecodeMsgArray_seq.
  unfold fieldDecoders.
  set (dict := ["web"; "GET /"]%string).
  erewrite (callMethod_seq_next (decodeService dict) _ _ _
              (mkSpanSt _ h (setService "web" sp))) by reflexivity.
  erewrite (callMethod_seq_next (decodeName dict) _ _ _
              (mkSpanSt _ h (setName "GET /" (setService "web" sp))))
    by reflexivity.
  set (sp3 := setResource "web" (setName "GET /" (setService "web" sp))).
  erewrite (callMethod_seq_next (decodeResource dict) _ _ _ (mkSpanSt _ h sp3))
    by reflexivity.
  erewrite (callMethod_seq_next decodeTraceID _ _ _
             (mkSpanSt _ h (setTraceID 1 sp3)))
    by numeric_field parseUint64_wireInt.
  erewrite (callMethod_seq_next decodeSpanID _ _ _
             (mkSpanSt _ h (setSpanID 2 (setTraceID 1 sp3))))
    by numeric_field parseUint64_wireInt.
  set (sp6 := setParentID 0 (setSpanID 2 (setTraceID 1 sp3))).
  erewrite (callMethod_seq_next decodeParentID _ _ _ (mkSpanSt _ h sp6))
    by numeric_field parseUint64_wireInt.
  erewrite (callMethod_seq_next decodeStart _ _ _
              (mkSpanSt _ h (setStart 1000 sp6)))
    by numeric_field parseInt64_wireInt.
  erewrite (callMethod_seq_next decodeDuration _ _ _
             (mkSpanSt _ h (setDuration 500 (setStart 1000 sp6))))
    by numeric_field parseInt64_wireInt.
  set (sp9 := setError 0 (setDuration 500 (setStart 1000 sp6))).
  erewrite (callMethod_seq_next decodeError _ _ _ (mkSpanSt _ h sp9))
    by numeric_field parseInt32_wireInt.
  destruct (decodeMeta_empty dict (WMapHeader 0 :: WInt 1 :: rest) h sp9)
    as (sm & HMeta & Hsm).
  rewrite (callMethod_seq_next _ _ _ _ _ HMeta).
  destruct (decodeMetrics_empty dict (WInt 1 :: rest)
              (mkHeap sm (numMaps h)) sp9) as (nm & HMetrics & Hnm).
  rewrite (callMethod_seq_next _ _ _ _ _ HMetrics).
  erewrite (callMethod_seq_next (decodeType dict) _ _ _
              (mkSpanSt rest (mkHeap sm nm) (setType "GET /" sp9)))
    by reflexivity.
  exists (mkHeap sm nm). done.
Qed.

(** Evaluation of the statements of [readTraces] on a state whose batch
    is known in shape; the call of the span decoder is left as it is. *)
Ltac leb_decide :=
  repeat match goal with
    | |- context [?a <=? ?b] =>
        first [ replace (a <=? b) with true
                  by (symmetry; apply Z.leb_le; lia)
              | replace (a <=? b) with false
                  by (symmetry; apply Z.leb_gt; lia) ]
    end.

Ltac lt_decide :=
  repeat match goal with
    | |- context [decide (?a < ?b)%nat] =>
        rewrite (decide_True (P := (a < b)%nat)) by (simpl; lia)
    end.

Ltac run_traces :=
  repeat (progress (
    unfold bind, read, check, get, next, storeTraces, modify, eval, forRange,
      callSpan, return_, cap, len, makeSlice, reslice, nilSlice, slotGet,
      slotSet, sliceGet, sliceSet, isNil;
    cbn -[Span_DecodeMsgArray callMethod]; leb_decide; lt_decide;
    change (Z.to_nat 1) with 1%nat)).

Ltac one_span Hspan :=
  unfold readTraces, callMethod; run_traces; rewrite Hspan; run_traces;
  match goal with
  | |- context [match ?r with Normal _ => _ | Panic _ => _ end] =>
      destruct r as [[?|]|?]
  end;
  eexists; split; reflexivity.

(** A list of traces that declares one trace of one span, into any batch:
    the span decoder runs once, on the span that the first slot of the
    first trace pointed to or, if there was none, on a new span; its
    outcome is the outcome of the method, and the batch is then one trace
    of one span, the one decoded into. *)
Lemma readTraces_one_span dict dcS h zs r sst :
  callMethod (Span_DecodeMsgArray dict) (mkSpanSt dcS h (firstSlot zs))
  = (r, sst) ->
  exists zs',
    callMethod (readTraces dict)
      (mkTracesSt (WArrayHeader 1 :: WArrayHeader 1 :: dcS) h zs)
    = (r, mkTracesSt (dc sst) (hp sst) zs')
    /\ elems <$> elems zs' = [[Some (z sst)]].
Proof.
  destruct zs as [[|[[|[sp|] tarr] tn] arr] n]; unfold firstSlot; simpl;
    intros Hspan; one_span Hspan.
Qed.

(** A span record of a wrong arity in a batch: the method returns the arity
    error, and the span of the slot is the recycled span as it was, or a new
    span with no field set. *)
Lemma readTraces_arity dict xsz rest h zs :
  xsz <> spanPropertyCount ->
  exists zs',
    callMethod (readTraces dict)
      (mkTracesSt (WArrayHeader 1 :: WArrayHeader 1 :: WArrayHeader xsz
                     :: rest) h zs)
    = (Normal (Some ErrSpanArity), mkTracesSt rest h zs')
    /\ elems <$> elems zs' = [[Some (firstSlot zs)]].
Proof.
  intros Hsz.
  assert (Hspan :
    callMethod (Span_DecodeMsgArray dict)
      (mkSpanSt (WArrayHeader xsz :: rest) h (firstSlot zs))
    = (Normal (Some ErrSpanArity), mkSpanSt rest h (firstSlot zs))).
  { unfold Span_DecodeMsgArray, callMethod, bind, read. simpl.
    destruct (Z.eqb_spec xsz spanPropertyCount); [done|]. reflexivity. }
  exact (readTraces_one_span _ _ _ _ _ _ Hspan).
Qed.

(** A batch whose dictionary holds strings only: the traces are read with
    the list of those strings as the dictionary. *)
Lemma Traces_DecodeMsgArray_strings
    (a : Z) (es : list (bool * string)) rest h zs :
  callMethod Traces_DecodeMsgArray
    (mkTracesSt (WArrayHeader a :: WArrayHeader (len es) :: map dictEntry es
                   ++ rest) h zs)
  = callMethod (readTraces es.*2) (mkTracesSt rest h zs).
Proof.
  unfold Traces_DecodeMsgArray, callMethod.
  unfold bind at 1 2 3. unfold read at 1, check at 1. simpl.
  by rewrite readDictionary_strings.
Qed.

(** C8. The example payload, whichever way (signed or unsigned) its six
    numbers are typed on the wire, decoded into any batch, fresh or
    recycled, over any heap: the decoder returns no error, has read the
    whole payload, and the batch is one trace of one span with Service
    "web", Name "GET /", Resource "web", TraceID 1, SpanID 2, ParentID 0,
    Start 1000, Duration 500, Error 0, no Meta and no Metrics entry, Type
    "GET /". *)
Theorem Traces_DecodeMsgArray_example
    (b3 b4 b5 b6 b7 b8 : bool) (h : Heap) (zs : Traces) :
  exists st span,
    callMethod Traces_DecodeMsgArray
      (mkTracesSt (examplePayload b3 b4 b5 b6 b7 b8) h zs)
    = (Normal None, st)
    /\ tdc st = []
    /\ elems <$> elems (tz st) = [[Some span]]
    /\ span = mkSpan "web" "GET /" "web" 1 2 0 1000 500 0
                (Meta span) (Metrics span) "GET /"
    /\ lenMap (strMaps (thp st)) (Meta span) = 0
    /\ lenMap (numMaps (thp st)) (Metrics span) = 0.
Proof.
  pose proof (Traces_DecodeMsgArray_strings 2
                [(false, "web"); (false, "GET /")]%string
                (WArrayHeader 1 :: WArrayHeader 1
                   :: exampleRecord b3 b4 b5 b6 b7 b8 ++ []) h zs) as Hdict.
  rewrite app_nil_r in Hdict.
  change (callMethod Traces_DecodeMsgArray
            (mkTracesSt (examplePayload b3 b4 b5 b6 b7 b8) h zs)
          = callMethod (readTraces ["web"; "GET /"]%string)
              (mkTracesSt (WArrayHeader 1 :: WArrayHeader 1
                             :: exampleRecord b3 b4 b5 b6 b7 b8) h zs))
    in Hdict.
  destruct (Span_DecodeMsgArray_example b3 b4 b5 b6 b7 b8 [] h
              (firstSlot zs)) as (h' & Hspan & HMeta & HMetrics).
  rewrite app_nil_r in Hspan.
  destruct (readTraces_one_span _ _ _ _ _ _ Hspan)
    as (zs' & Hcall & Helems).
  eexists. eexists. split; [by rewrite Hdict, Hcall|].
  split; [done|]. split; [exact Helems|]. done.
Qed.

End Example.

(** * Further properties of the decoder *)

(** ** The scalar decoders *)

Section Scalars.
Implicit Types (dc rest : Reader) (w : wire).



(** X2. [parseFloat64] returns a number without error exactly when the
    next value is a signed integer, an unsigned integer or a 64-bit float,
    which it consumes: an integer is converted by [float64(i)], whatever its
    typing, and a float is returned as it is.  A 32-bit float is refused
    like any other type.  Whenever it returns an error the number is 0 and
    the reader has not moved. *)
Theorem parseFloat64_outcomes :
  (forall dc f dc',
     parseFloat64 dc = (f, None, dc') <->
     (exists w, dc = w :: dc' /\
        ((exists i, w = WInt i /\ f = to_float64 i) \/
         (exists u, w = WUint u /\ f = to_float64 u) \/
         w = WFloat64 f))) /\
  (forall dc f e dc',
     parseFloat64 dc = (f, Some e, dc') ->
     f = S754_zero false /\ dc' = dc) /\
  (forall f rest,
     parseFloat64 (WFloat32 f :: rest)
     = (S754_zero false, Some (TypeError Float64Type Float32Type),
        WFloat32 f :: rest)).
Proof.
  split; [|split].
  - intros dc f dc'. split.
    + destruct dc as [|w dc]; [done|].
      destruct w; unfold parseFloat64; simpl; intros Hp; simplify_eq;
        eexists; split; eauto.
    + intros (w & -> & [(i & -> & ->) | [(u & -> & ->) | ->]]); reflexivity.
  - intros dc f e dc'. destruct dc as [|w dc].
    + unfold parseFloat64. simpl. intros Hp. by simplify_eq.
    + destruct w; unfold parseFloat64; simpl; intros Hp; by simplify_eq.
  - reflexivity.
Qed.

Lemma parseFloat64_outcomes_witness :
  parseFloat64 [WUint 3; WNil] = (to_float64 3, None, [WNil]) /\
  parseFloat64 [WInt 3; WNil] = (to_float64 3, None, [WNil]).
Proof.
  split.
  - apply (proj1 parseFloat64_outcomes). exists (WUint 3).
    split; [reflexivity|]. right. left. by exists 3.
  - apply (proj1 parseFloat64_outcomes). exists (WInt 3).
    split; [reflexivity|]. left. by exists 3.
Defined.

(** X3. At a value that is not an integer, [parseInt64], [parseUint64] and
    [parseInt32] return 0 with a type error that names [IntType] as the
    expected type (also [parseUint64]), and do not consume the value. *)
Theorem integer_decoders_type_mismatch w rest :
  getType w <> IntType -> getType w <> UintType ->
  getType w <> InvalidType ->
  parseInt64 (w :: rest)
  = (0, Some (TypeError IntType (getType w)), w :: rest) /\
  parseUint64 (w :: rest)
  = (0, Some (TypeError IntType (getType w)), w :: rest) /\
  parseInt32 (w :: rest)
  = (0, Some (TypeError IntType (getType w)), w :: rest).
Proof. intros Hi Hu Hv. by destruct w. Qed.

Lemma integer_decoders_type_mismatch_witness :
  parseInt64 [WStr "7"] = (0, Some (TypeError IntType StrType), [WStr "7"]) /\
  parseUint64 [WStr "7"] = (0, Some (TypeError IntType StrType), [WStr "7"]) /\
  parseInt32 [WStr "7"] = (0, Some (TypeError IntType StrType), [WStr "7"]).
Proof.
  apply (integer_decoders_type_mismatch (WStr "7") []); discriminate.
Defined.

(** X4. A signed wire integer [i]: [parseInt64] returns it as it is;
    [parseInt32] returns it if it lies within the signed 32-bit range and
    otherwise fails with the reader's overflow error for 32 bits, the
    value consumed in both cases. *)
Theorem parseInt_signed i rest :
  parseInt64 (WInt i :: rest) = (i, None, rest) /\
  (is_int32 i -> parseInt32 (WInt i :: rest) = (i, None, rest)) /\
  (~ is_int32 i ->
   parseInt32 (WInt i :: rest) = (0, Some (IntOverflow i 32), rest)).
Proof.
  split; [done|]. unfold parseInt32, ReadInt32, is_int32. simpl.
  split; intros Hi.
  - destruct (Z.ltb_spec MaxInt32 i); [lia|].
    destruct (Z.ltb_spec i MinInt32); [lia|]. simpl.
    by rewrite to_int32_id.
  - destruct (Z.ltb_spec MaxInt32 i); [done|].
    destruct (Z.ltb_spec i MinInt32); [done|]. lia.
Qed.

Lemma parseInt_signed_witness :
  is_int32 (-5) /\ ~ is_int32 (2 ^ 31) /\
  parseInt32 [WInt (-5)] = (-5, None, []) /\
  parseInt32 [WInt (2 ^ 31)] = (0, Some (IntOverflow (2 ^ 31) 32), []).
Proof.
  assert (Hin : is_int32 (-5))
    by (unfold is_int32, MinInt32, MaxInt32; lia).
  assert (Hout : ~ is_int32 (2 ^ 31))
    by (unfold is_int32, MinInt32, MaxInt32; lia).
  split; [exact Hin|]. split; [exact Hout|].
  destruct (parseInt_signed (-5) []) as (_ & Hok & _).
  destruct (parseInt_signed (2 ^ 31) []) as (_ & _ & Hbad).
  split; [exact (Hok Hin) | exact (Hbad Hout)].
Defined.

(** X5. A number from 0 to 2^63-1 is decoded to itself by [parseUint64]
    and by [parseInt64], and a number from 0 to 2^31-1 by [parseInt32],
    whether the wire types it as signed or as unsigned. *)
Theorem integer_decoders_either_typing (unsigned : bool) n rest :
  0 <= n <= MaxInt64 ->
  parseUint64 (wireInt unsigned n :: rest) = (n, None, rest) /\
  parseInt64 (wireInt unsigned n :: rest) = (n, None, rest) /\
  (n <= MaxInt32 -> parseInt32 (wireInt unsigned n :: rest) = (n, None, rest)).
Proof.
  intros Hn. split; [by apply parseUint64_wireInt|].
  split; [by apply parseInt64_wireInt|].
  intros H32. apply parseInt32_wireInt. lia.
Qed.

Lemma integer_decoders_either_typing_witness :
  0 <= 1000 <= MaxInt64 /\
  parseUint64 [WUint 1000] = (1000, None, []) /\
  parseInt64 [WUint 1000] = (1000, None, []) /\
  parseInt32 [WInt 1000] = (1000, None, []).
Proof.
  assert (Hn : 0 <= 1000 <= MaxInt64) by (unfold MaxInt64; lia).
  split; [exact Hn|].
  destruct (integer_decoders_either_typing true 1000 [] Hn)
    as (Hu & Hi & _).
  destruct (integer_decoders_either_typing false 1000 [] Hn)
    as (_ & _ & H32).
  split; [exact Hu|]. split; [exact Hi|].
  apply H32. unfold MaxInt32. lia.
Defined.

End Scalars.

(** ** The dictionary and the batch *)

Section DictionaryAndBatch.
Implicit Types (es : list (bool * string)) (rest : Reader) (h : Heap)
  (zs : Traces).

(** The input ends before the entry in turn: the loop returns the reader's
    error. *)
Lemma dictLoop_end_of_input i n dict h zs :
  dictLoop i (S n) dict (mkTracesSt [] h zs)
  = (Return (Some EOF), mkTracesSt [] h zs).
Proof. reflexivity. Qed.

(** X6. The dictionary block of [Traces.DecodeMsgArray] on a header that
    declares [N] entries: if [N] byte-string or UTF-8-string entries
    follow, it yields their strings in wire order, with the reader right
    after them; if the input ends after fewer than [N] such entries, it
    makes the method return the end-of-input error.  The heap and the batch
    are untouched in both cases. *)
Theorem readDictionary_entries es h zs :
  (forall rest,
     readDictionary
       (mkTracesSt (WArrayHeader (len es) :: map dictEntry es ++ rest) h zs)
     = (Next es.*2, mkTracesSt rest h zs)) /\
  (forall sz,
     (length es < Z.to_nat sz)%nat ->
     readDictionary
       (mkTracesSt (WArrayHeader sz :: map dictEntry es) h zs)
     = (Return (Some EOF), mkTracesSt [] h zs)).
Proof.
  split; [intros rest; apply readDictionary_strings|].
  intros sz Hsz. unfold readDictionary, bind, read, check, next. simpl.
  replace (Z.to_nat sz)
    with (length es + S (Z.to_nat sz - length es - 1))%nat by lia.
  rewrite replicate_add.
  rewrite <- (app_nil_r (map dictEntry es)).
  rewrite dictLoop_strings_from_start. apply dictLoop_end_of_input.
Qed.

Lemma readDictionary_entries_witness :
  readDictionary
    (mkTracesSt [WArrayHeader 2; WStr "web"; WBin "GET /"; WArrayHeader 0]
       (mkHeap ∅ ∅) nilSlice)
  = (Next ["web"; "GET /"]%string,
     mkTracesSt [WArrayHeader 0] (mkHeap ∅ ∅) nilSlice)
  /\ (length [(false, "web"%string)] < Z.to_nat 2)%nat
  /\ readDictionary
       (mkTracesSt [WArrayHeader 2; WStr "web"] (mkHeap ∅ ∅) nilSlice)
     = (Return (Some EOF), mkTracesSt [] (mkHeap ∅ ∅) nilSlice).
Proof.
  split.
  - apply (proj1 (readDictionary_entries
                    [(false, "web"); (true, "GET /")]%string
                    (mkHeap ∅ ∅) nilSlice) [WArrayHeader 0]).
  - assert (Hlt : (length [(false, "web"%string)] < Z.to_nat 2)%nat)
      by (simpl; lia).
    split; [exact Hlt|].
    apply (proj2 (readDictionary_entries [(false, "web"%string)]
                    (mkHeap ∅ ∅) nilSlice) 2 Hlt).
Defined.

(** X7. A dictionary entry of a type other than nil, byte string and UTF-8
    string, after string entries: the whole decode fails with the error
    "dictionary value at index i has unsupported type" for the index of
    that entry; the entry is not consumed and the batch is untouched. *)
Theorem dictionary_entry_unsupported (a sz : Z) es (w : wire) rest h zs :
  (length es < Z.to_nat sz)%nat ->
  unsupportedEntry w = true ->
  callMethod Traces_DecodeMsgArray
    (mkTracesSt (WArrayHeader a :: WArrayHeader sz :: map dictEntry es
                   ++ w :: rest) h zs)
  = (Normal (Some (ErrDictValueType (len es))), mkTracesSt (w :: rest) h zs).
Proof.
  intros Hlen Hw.
  by destruct (Traces_DecodeMsgArray_unsupported_entry a sz es w rest h zs
                 Hlen Hw).
Qed.

Lemma dictionary_entry_unsupported_witness :
  (length [(false, "web"%string)] < Z.to_nat 2)%nat /\
  unsupportedEntry (WInt 7) = true /\
  callMethod Traces_DecodeMsgArray
    (mkTracesSt [WArrayHeader 2; WArrayHeader 2; WStr "web"; WInt 7;
                 WArrayHeader 0] (mkHeap ∅ ∅) nilSlice)
  = (Normal (Some (ErrDictValueType 1)),
     mkTracesSt [WInt 7; WArrayHeader 0] (mkHeap ∅ ∅) nilSlice).
Proof.
  assert (Hlt : (length [(false, "web"%string)] < Z.to_nat 2)%nat)
    by (simpl; lia).
  split; [exact Hlt|]. split; [reflexivity|].
  apply (dictionary_entry_unsupported 2 2 [(false, "web"%string)] (WInt 7)
           [WArrayHeader 0] (mkHeap ∅ ∅) nilSlice Hlt eq_refl).
Defined.

(** X8. A payload with a dictionary of strings and a list of traces that
    declares no trace, into any batch: the decoder returns no error and
    leaves a batch of length 0 on the backing array the caller passed,
    which it neither replaces nor changes; the heap is untouched. *)
Theorem Traces_DecodeMsgArray_no_traces (a : Z) es rest h zs :
  callMethod Traces_DecodeMsgArray
    (mkTracesSt (WArrayHeader a :: WArrayHeader (len es) :: map dictEntry es
                   ++ WArrayHeader 0 :: rest) h zs)
  = (Normal None, mkTracesSt rest h (mkSlice (array zs) 0))
  /\ elems (mkSlice (array zs) 0) = [].
Proof.
  split; [|done]. rewrite Traces_DecodeMsgArray_strings.
  unfold readTraces, callMethod, bind, read, check, get, next, storeTraces,
    modify, forRange, return_. simpl.
  destruct (Z.leb_spec 0 (cap zs)) as [_ | Hneg]; [done|].
  unfold cap, len in Hneg. lia.
Qed.

(** X9. A list of traces that declares one trace of one span, into any
    batch: the span decoder runs once, on the span that slot [0][0] of the
    caller's buffer points to if the buffer reaches that far and the slot
    is not nil, on a new span otherwise.  Whatever the span decoder
    returns, error or panic included, is what the method returns, with the
    reader and the heap as the span decoder left them, and the batch is
    then that one trace of that one span. *)
Theorem Traces_DecodeMsgArray_one_span
    (a : Z) es (dcS : Reader) h zs (r : result (option error))
    (sst : SpanSt) :
  callMethod (Span_DecodeMsgArray es.*2) (mkSpanSt dcS h (firstSlot zs))
  = (r, sst) ->
  exists zs',
    callMethod Traces_DecodeMsgArray
      (mkTracesSt (WArrayHeader a :: WArrayHeader (len es) :: map dictEntry es
                     ++ WArrayHeader 1 :: WArrayHeader 1 :: dcS) h zs)
    = (r, mkTracesSt (dc sst) (hp sst) zs')
    /\ elems <$> elems zs' = [[Some (z sst)]].
Proof.
  intros Hspan. rewrite Traces_DecodeMsgArray_strings.
  by apply readTraces_one_span.
Qed.

Lemma Traces_DecodeMsgArray_one_span_witness :
  callMethod (Span_DecodeMsgArray ["web"%string])
    (mkSpanSt [WArrayHeader 3]
       (mkHeap ∅ ∅)
       (firstSlot (mkSlice [mkSlice [Some (setTraceID 7 newSpan)] 0] 0)))
  = (Normal (Some ErrSpanArity),
     mkSpanSt [] (mkHeap ∅ ∅) (setTraceID 7 newSpan))
  /\ exists zs',
       callMethod Traces_DecodeMsgArray
         (mkTracesSt [WArrayHeader 2; WArrayHeader 1; WStr "web";
                      WArrayHeader 1; WArrayHeader 1; WArrayHeader 3]
            (mkHeap ∅ ∅)
            (mkSlice [mkSlice [Some (setTraceID 7 newSpan)] 0] 0))
       = (Normal (Some ErrSpanArity), mkTracesSt [] (mkHeap ∅ ∅) zs')
       /\ elems <$> elems zs' = [[Some (setTraceID 7 newSpan)]].
Proof.
  assert (Hspan :
    callMethod (Span_DecodeMsgArray ["web"%string])
      (mkSpanSt [WArrayHeader 3]
         (mkHeap ∅ ∅)
         (firstSlot (mkSlice [mkSlice [Some (setTraceID 7 newSpan)] 0] 0)))
    = (Normal (Some ErrSpanArity),
       mkSpanSt [] (mkHeap ∅ ∅) (setTraceID 7 newSpan))) by reflexivity.
  split; [exact Hspan|].
  apply (Traces_DecodeMsgArray_one_span 2 [(false, "web"%string)]
           [WArrayHeader 3] (mkHeap ∅ ∅)
           (mkSlice [mkSlice [Some (setTraceID 7 newSpan)] 0] 0) _ _ Hspan).
Defined.

End DictionaryAndBatch.

(** ** What a span decode never does *)

Section SpanSafety.
Implicit Types (dictionary : list string) (st : SpanSt) (p : panic).

(** [parseStringDict] panics only on a negative index. *)
Lemma parseStringDict_panic dc dictionary p dc' :
  parseStringDict dc dictionary = (Panic p, dc') ->
  negativeIndexPanic (len dictionary) p.
Proof.
  unfold parseStringDict. destruct (ReadInt dc) as [[i err] dc1].
  destruct (Z.leb_spec (len dictionary) i) as [|Hlt]; [done|].
  unfold index. destruct (Z.ltb_spec i 0) as [Hneg | Hpos]; simpl.
  - intros Hp. simplify_eq. by exists i.
  - destruct (Z.leb_spec (len dictionary) i); [lia|].
    destruct (lookup_lt_is_Some_2 dictionary (Z.to_nat i)) as [s Hs];
      [unfold len in *; lia|].
    by rewrite Hs.
Qed.

(** The loops write to the map only when there is one. *)
Lemma metaLoop_panic dictionary n st p st' :
  n = 0%nat \/ is_Some (Meta (z st)) ->
  metaLoop dictionary n st = (Panicked p, st') ->
  negativeIndexPanic (len dictionary) p.
Proof.
  revert st. induction n as [|n IH]; intros st Hmap Hrun; [done|].
  destruct Hmap as [|[l Hl]]; [done|]. simpl in Hrun.
  unfold bind, readDict, check, return_, next in Hrun. simpl in Hrun.
  destruct (parseStringDict (dc st) dictionary)
    as [[[k [e|]] | p1] dc1] eqn:Hk; simpl in Hrun; simplify_eq.
  2: by eapply parseStringDict_panic.
  destruct (parseStringDict dc1 dictionary)
    as [[[v [e|]] | p2] dc2] eqn:Hv; simpl in Hrun; simplify_eq.
  2: by eapply parseStringDict_panic.
  unfold assignMeta, mapAssign in Hrun. simpl in Hrun.
  rewrite Hl in Hrun. simpl in Hrun.
  eapply IH; [|exact Hrun]. right. simpl. by rewrite Hl.
Qed.

Lemma metricsLoop_panic dictionary n st p st' :
  n = 0%nat \/ is_Some (Metrics (z st)) ->
  metricsLoop dictionary n st = (Panicked p, st') ->
  negativeIndexPanic (len dictionary) p.
Proof.
  revert st. induction n as [|n IH]; intros st Hmap Hrun; [done|].
  destruct Hmap as [|[l Hl]]; [done|]. simpl in Hrun.
  unfold bind, readDict, read, check, return_, next in Hrun.
  simpl in Hrun.
  destruct (parseStringDict (dc st) dictionary)
    as [[[k [e|]] | p1] dc1] eqn:Hk; simpl in Hrun; simplify_eq.
  2: by eapply parseStringDict_panic.
  destruct (parseFloat64 dc1) as [[v [e|]] dc2]; simpl in Hrun;
    simplify_eq.
  unfold assignMetrics, mapAssign in Hrun. simpl in Hrun.
  rewrite Hl in Hrun. simpl in Hrun.
  eapply IH; [|exact Hrun]. right. simpl. by rewrite Hl.
Qed.

Lemma decodeMeta_panic dictionary st p st' :
  decodeMeta dictionary st = (Panicked p, st') ->
  negativeIndexPanic (len dictionary) p.
Proof.
  unfold decodeMeta, bind, read, check, get, return_, next. simpl.
  destruct (ReadMapHeader (dc st)) as [[n [e|]] dc1]; simpl; [done|].
  destruct (Meta (z st)) as [l|] eqn:HM; simpl.
  - match goal with
    | |- context [if ?c then clearMeta else _] => destruct c
    end.
    + unfold clearMeta. simpl. rewrite HM. apply metaLoop_panic.
      right. simpl. by rewrite HM.
    + apply metaLoop_panic. right. simpl. by rewrite HM.
  - destruct (Z.ltb_spec 0 n); simpl.
    + unfold makeMeta. simpl. apply metaLoop_panic. right. simpl. by eexists.
    + apply metaLoop_panic. left. lia.
Qed.

Lemma decodeMetrics_panic dictionary st p st' :
  decodeMetrics dictionary st = (Panicked p, st') ->
  negativeIndexPanic (len dictionary) p.
Proof.
  unfold decodeMetrics, bind, read, check, get, return_, next. simpl.
  destruct (ReadMapHeader (dc st)) as [[n [e|]] dc1]; simpl; [done|].
  destruct (Metrics (z st)) as [l|] eqn:HM; simpl.
  - match goal with
    | |- context [if ?c then clearMetrics else _] => destruct c
    end.
    + unfold clearMetrics. simpl. rewrite HM. apply metricsLoop_panic.
      right. simpl. by rewrite HM.
    + apply metricsLoop_panic. right. simpl. by rewrite HM.
  - destruct (Z.ltb_spec 0 n); simpl.
    + unfold makeMetrics. simpl. apply metricsLoop_panic. right. simpl.
      by eexists.
    + apply metricsLoop_panic. left. lia.
Qed.

Lemma fieldDecoders_panic dictionary f st p st' :
  f ∈ fieldDecoders dictionary ->
  f st = (Panicked p, st') ->
  negativeIndexPanic (len dictionary) p.
Proof.
  unfold fieldDecoders. rewrite !elem_of_cons, elem_of_nil.
  intros Hf. repeat destruct Hf as [-> | Hf]; try done;
    first [ apply decodeMeta_panic | apply decodeMetrics_panic | idtac ];
    unfold decodeService, decodeName, decodeResource, decodeTraceID,
      decodeSpanID, decodeParentID, decodeStart, decodeDuration, decodeError,
      decodeType, bind, read, readDict, store, modify, check, return_, next;
    simpl; intros Hrun;
    match type of Hrun with
    | context [parseStringDict ?d ?dict] =>
        let Hp := fresh "Hparse" in
        destruct (parseStringDict d dict) as [[[? [?|]] | ?] ?] eqn:Hp;
        simplify_eq; by eapply parseStringDict_panic
    | context [?g (dc ?s)] =>
        destruct (g (dc s)) as [[? [?|]] ?]; by simplify_eq
    end.
Qed.

(** A panic of the method is a panic of one of its twelve field
    decoders. *)
Lemma spanCall_panic dictionary st p st' :
  callMethod (Span_DecodeMsgArray dictionary) st = (Panic p, st') ->
  negativeIndexPanic (len dictionary) p.
Proof.
  intros Hcall. destruct st as [dc0 h z0].
  assert (Hhdr : exists rest, dc0 = WArrayHeader 12 :: rest).
  { unfold Span_DecodeMsgArray, callMethod, bind at 1 2 3, read, check
      in Hcall.
    destruct dc0 as [|w rest]; [done|].
    destruct w; try done. simpl in Hcall.
    destruct (Z.eqb_spec sz spanPropertyCount) as [-> | Hne]; [|done].
    by exists rest. }
  destruct Hhdr as [rest ->].
  rewrite Span_DecodeMsgArray_fields in Hcall.
  destruct (runFields (fieldDecoders dictionary) (mkSpanSt rest h z0))
    as [[k r] st1] eqn:Hrun.
  simpl in Hcall. destruct r as [u | err | p1]; simpl in Hcall; simplify_eq.
  destruct (runFields_stopped _ _ _ _ _ Hrun ltac:(done))
    as (f & stk & Hf & _ & Hstep).
  eapply fieldDecoders_panic; [|exact Hstep].
  by eapply list_elem_of_lookup_2.
Qed.

(** X10. Whatever the input and the destination span, the only panic of
    [Span.DecodeMsgArray] is the index-out-of-range panic of a negative
    dictionary index: it never writes an entry to a nil map. *)
Theorem Span_DecodeMsgArray_panics dictionary st p st' :
  callMethod (Span_DecodeMsgArray dictionary) st = (Panic p, st') ->
  negativeIndexPanic (len dictionary) p.
Proof. apply spanCall_panic. Qed.

Lemma Span_DecodeMsgArray_panics_witness :
  callMethod (Span_DecodeMsgArray ["web"%string])
    (mkSpanSt [WArrayHeader 12; WInt 0; WInt (-3)] (mkHeap ∅ ∅) newSpan)
  = (Panic (IndexOutOfRangePanic (-3) 1),
     mkSpanSt [] (mkHeap ∅ ∅) (setService "web" newSpan))
  /\ negativeIndexPanic (len ["web"%string]) (IndexOutOfRangePanic (-3) 1).
Proof.
  assert (Hcall :
    callMethod (Span_DecodeMsgArray ["web"%string])
      (mkSpanSt [WArrayHeader 12; WInt 0; WInt (-3)] (mkHeap ∅ ∅) newSpan)
    = (Panic (IndexOutOfRangePanic (-3) 1),
       mkSpanSt [] (mkHeap ∅ ∅) (setService "web" newSpan)))
    by reflexivity.
  split; [exact Hcall|].
  exact (Span_DecodeMsgArray_panics _ _ _ _ Hcall).
Defined.

End SpanSafety.

(** ** The map objects a span decode leaves alone *)

Section HeapFrame.
Implicit Types (dictionary : list string) (st : SpanSt).

Lemma mapFrame_refl {V} (h : gmap loc (gmap string V)) m : mapFrame h h m m.
Proof. split; [done|]. split; [done|]. by left. Qed.

Lemma mapFrame_trans {V} (h1 h2 h3 : gmap loc (gmap string V)) m1 m2 m3 :
  mapFrame h1 h2 m1 m2 -> mapFrame h2 h3 m2 m3 -> mapFrame h1 h3 m1 m3.
Proof.
  intros (Hd12 & Hk12 & Hm12) (Hd23 & Hk23 & Hm23).
  split; [by transitivity (dom h2)|]. split.
  - intros l Hl Hin. rewrite <- (Hk12 l Hl Hin).
    apply Hk23; [|by apply Hd12].
    destruct Hm12 as [-> | (l2 & -> & Hfresh)]; [done|]. congruence.
  - destruct Hm23 as [-> | (l3 & -> & Hfresh3)]; [done|].
    right. exists l3. split; [done|]. intros Hin. by apply Hfresh3, Hd12.
Qed.

(** The object a field points to is written; the others stay. *)
Lemma mapFrame_insert {V} (h : gmap loc (gmap string V)) l obj :
  mapFrame h (<[l := obj]> h) (Some l) (Some l).
Proof.
  split; [rewrite dom_insert_L; set_solver|]. split; [|by left].
  intros l' Hne Hin. rewrite lookup_insert_ne; [done|congruence].
Qed.

(** A new object is made; those that were there stay. *)
Lemma mapFrame_make {V} (h : gmap loc (gmap string V)) m hint :
  mapFrame h (makeMap h hint).2 m (Some (makeMap h hint).1).
Proof.
  unfold makeMap. simpl.
  split; [rewrite dom_insert_L; set_solver|]. split.
  - intros l' Hne Hin. rewrite lookup_insert_ne; [done|].
    intros <-. by apply (is_fresh (dom h)).
  - right. eexists. split; [done|]. apply is_fresh.
Qed.

#[local] Instance heapFrame_preorder : PreOrder heapFrame.
Proof.
  split.
  - intros st. split; apply mapFrame_refl.
  - intros st1 st2 st3 [Hs12 Hn12] [Hs23 Hn23].
    split; by eapply mapFrame_trans.
Qed.

Lemma read_heapFrame {A} (f : Reader -> A * option error * Reader) :
  preserves heapFrame (read (S := SpanSt) f).
Proof.
  intros st r st' Hc. unfold read in Hc. simpl in Hc.
  destruct (f (dc st)) as [[v err] dc']. simplify_eq.
  split; apply mapFrame_refl.
Qed.

Lemma readDict_heapFrame dictionary :
  preserves heapFrame (readDict (S := SpanSt) dictionary).
Proof.
  intros st r st' Hc. unfold readDict in Hc. simpl in Hc.
  destruct (parseStringDict (dc st) dictionary) as [[v | p] dc'];
    simplify_eq; split; apply mapFrame_refl.
Qed.

(** An assignment to a field that is no map. *)
Lemma store_heapFrame (set : Span -> Span) :
  (forall z0, Meta (set z0) = Meta z0 /\ Metrics (set z0) = Metrics z0) ->
  preserves heapFrame (store set).
Proof.
  intros Hset st r st' Hc. unfold store, modify in Hc. simplify_eq.
  destruct (Hset (z st)) as [HM HN].
  split; simpl; rewrite ?HM, ?HN; apply mapFrame_refl.
Qed.

Lemma makeMeta_heapFrame metaSize : preserves heapFrame (makeMeta metaSize).
Proof.
  intros st r st' Hc. unfold makeMeta in Hc.
  pose proof (mapFrame_make (strMaps (hp st)) (Meta (z st)) metaSize) as Hmk.
  destruct (makeMap (strMaps (hp st)) metaSize) as [l sm]. simplify_eq.
  split; [exact Hmk | apply mapFrame_refl].
Qed.

Lemma clearMeta_heapFrame : preserves heapFrame clearMeta.
Proof.
  intros st r st' Hc. unfold clearMeta in Hc.
  destruct (Meta (z st)) as [l|] eqn:HM; simplify_eq;
    [|split; apply mapFrame_refl].
  split; simpl; [|apply mapFrame_refl]. rewrite HM. apply mapFrame_insert.
Qed.

Lemma assignMeta_heapFrame k v : preserves heapFrame (assignMeta k v).
Proof.
  intros st r st' Hc. unfold assignMeta, mapAssign in Hc.
  destruct (Meta (z st)) as [l|] eqn:HM; simplify_eq;
    [|split; apply mapFrame_refl].
  split; simpl; [|apply mapFrame_refl]. rewrite HM. apply mapFrame_insert.
Qed.

Lemma makeMetrics_heapFrame metricsSize :
  preserves heapFrame (makeMetrics metricsSize).
Proof.
  intros st r st' Hc. unfold makeMetrics in Hc.
  pose proof (mapFrame_make (numMaps (hp st)) (Metrics (z st)) metricsSize)
    as Hmk.
  destruct (makeMap (numMaps (hp st)) metricsSize) as [l nm]. simplify_eq.
  split; [apply mapFrame_refl | exact Hmk].
Qed.

Lemma clearMetrics_heapFrame : preserves heapFrame clearMetrics.
Proof.
  intros st r st' Hc. unfold clearMetrics in Hc.
  destruct (Metrics (z st)) as [l|] eqn:HM; simplify_eq;
    [|split; apply mapFrame_refl].
  split; simpl; [apply mapFrame_refl|]. rewrite HM. apply mapFrame_insert.
Qed.

Lemma assignMetrics_heapFrame k v : preserves heapFrame (assignMetrics k v).
Proof.
  intros st r st' Hc. unfold assignMetrics, mapAssign in Hc.
  destruct (Metrics (z st)) as [l|] eqn:HM; simplify_eq;
    [|split; apply mapFrame_refl].
  split; simpl; [apply mapFrame_refl|]. rewrite HM. apply mapFrame_insert.
Qed.

Ltac heapFrame_step :=
  first
    [ apply preserves_bind; [apply _| |intros ?]
    | apply preserves_check; apply _
    | apply preserves_next; apply _
    | apply preserves_return; apply _
    | apply preserves_get; apply _
    | apply read_heapFrame
    | apply readDict_heapFrame
    | apply makeMeta_heapFrame
    | apply clearMeta_heapFrame
    | apply assignMeta_heapFrame
    | apply makeMetrics_heapFrame
    | apply clearMetrics_heapFrame
    | apply assignMetrics_heapFrame
    | apply store_heapFrame; intros []; by split
    | match goal with |- preserves _ (match ?x with _ => _ end) =>
        destruct x end ].

Lemma metaLoop_heapFrame dictionary n :
  preserves heapFrame (metaLoop dictionary n).
Proof.
  induction n as [|n IH]; simpl; repeat first [apply IH | heapFrame_step].
Qed.

Lemma metricsLoop_heapFrame dictionary n :
  preserves heapFrame (metricsLoop dictionary n).
Proof.
  induction n as [|n IH]; simpl; repeat first [apply IH | heapFrame_step].
Qed.

Lemma Span_DecodeMsgArray_heapFrame dictionary :
  preserves heapFrame (Span_DecodeMsgArray dictionary).
Proof.
  unfold Span_DecodeMsgArray, decodeService, decodeName, decodeResource,
    decodeTraceID, decodeSpanID, decodeParentID, decodeStart, decodeDuration,
    decodeError, decodeMeta, decodeMetrics, decodeType.
  repeat first [ apply metaLoop_heapFrame | apply metricsLoop_heapFrame
               | heapFrame_step ].
Qed.

(** X11. Whatever the input, and whether [Span.DecodeMsgArray] returns
    without error, with an error or panics: every map object of the heap
    other than the ones the span's Meta and Metrics fields pointed to
    before the call holds the entries it held before. *)
Theorem Span_DecodeMsgArray_other_maps dictionary st r st' :
  callMethod (Span_DecodeMsgArray dictionary) st = (r, st') ->
  (forall l, Meta (z st) <> Some l -> l ∈ dom (strMaps (hp st)) ->
     strMaps (hp st') !! l = strMaps (hp st) !! l) /\
  (forall l, Metrics (z st) <> Some l -> l ∈ dom (numMaps (hp st)) ->
     numMaps (hp st') !! l = numMaps (hp st) !! l).
Proof.
  intros Hcall. unfold callMethod in Hcall.
  destruct (Span_DecodeMsgArray dictionary st) as [[[] | err | p] st1]
    eqn:Hbody; simplify_eq;
    destruct (Span_DecodeMsgArray_heapFrame dictionary _ _ _ Hbody)
      as [(_ & Hs & _) (_ & Hn & _)]; by split.
Qed.

Lemma Span_DecodeMsgArray_other_maps_witness :
  callMethod (Span_DecodeMsgArray reuseDict)
    (mkSpanSt reusePayload
       (mkHeap {[ 1%positive := {[ "a" := "1" ]}%string;
                  2%positive := {[ "x" := "y" ]}%string ]} ∅)
       reuseSpan)
  = (Normal None,
     mkSpanSt []
       (mkHeap {[ 1%positive := {[ "k" := "v" ]}%string;
                  2%positive := {[ "x" := "y" ]}%string ]} ∅)
       (mkSpan "web" "web" "web" 1 2 0 1000 500 0 (Some 1%positive) None
          "web"))
  /\ ({[ 1%positive := {[ "k" := "v" ]}%string;
         2%positive := {[ "x" := "y" ]}%string ]}
       : gmap loc (gmap string string)) !! 2%positive
     = ({[ 1%positive := {[ "a" := "1" ]}%string;
           2%positive := {[ "x" := "y" ]}%string ]}
         : gmap loc (gmap string string)) !! 2%positive.
Proof.
  assert (Hcall :
    callMethod (Span_DecodeMsgArray reuseDict)
      (mkSpanSt reusePayload
         (mkHeap {[ 1%positive := {[ "a" := "1" ]}%string;
                    2%positive := {[ "x" := "y" ]}%string ]} ∅)
         reuseSpan)
    = (Normal None,
       mkSpanSt []
         (mkHeap {[ 1%positive := {[ "k" := "v" ]}%string;
                    2%positive := {[ "x" := "y" ]}%string ]} ∅)
         (mkSpan "web" "web" "web" 1 2 0 1000 500 0 (Some 1%positive) None
            "web"))) by (vm_compute; reflexivity).
  split; [exact Hcall|].
  apply (proj1 (Span_DecodeMsgArray_other_maps _ _ _ _ Hcall) 2%positive).
  - discriminate.
  - apply elem_of_dom. eexists. reflexivity.
Defined.

End HeapFrame.

(** ** The batch: slices within bounds, slots filled *)

Section WeakestPre.
Context {St : Type}.
Implicit Types (R : option error -> St -> Prop) (E : panic -> Prop) (st : St).

Lemma wp_bind {A B} (c : Stmt St A) (k : A -> Stmt St B) Q R E st :
  wp (bind c k) Q R E st = wp c (fun a st' => wp (k a) Q R E st') R E st.
Proof. unfold wp, bind. by destruct (c st) as [[a | err | p] st']. Qed.

Lemma wp_next {A} (a : A) Q R E st : wp (next a) Q R E st = Q a st.
Proof. reflexivity. Qed.

Lemma wp_return {A} err (Q : A -> St -> Prop) R E st :
  wp (return_ err) Q R E st = R err st.
Proof. reflexivity. Qed.

Lemma wp_check err Q R E st :
  wp (check err) Q R E st
  = match err with Some e => R (Some e) st | None => Q tt st end.
Proof. by destruct err. Qed.

Lemma wp_get Q R E st : wp get Q R E st = Q st st.
Proof. reflexivity. Qed.

Lemma wp_eval {A} (r : result A) Q R E st :
  wp (eval r) Q R E st
  = match r with Normal a => Q a st | Panic p => E p end.
Proof. by destruct r. Qed.

Lemma wp_if {A} (b : bool) (c1 c2 : Stmt St A) Q R E st :
  wp (if b then c1 else c2) Q R E st
  = if b then wp c1 Q R E st else wp c2 Q R E st.
Proof. by destruct b. Qed.

Lemma wp_mono {A} (c : Stmt St A) (Q Q' : A -> St -> Prop) R E st :
  (forall a st', Q a st' -> Q' a st') -> wp c Q R E st -> wp c Q' R E st.
Proof.
  unfold wp. intros HQ. destruct (c st) as [[a | err | p] st']; auto.
Qed.

Lemma wp_conseq {A} (c : Stmt St A) (Q Q' : A -> St -> Prop) R R' E E' st :
  (forall a st', Q a st' -> Q' a st') ->
  (forall err st', R err st' -> R' err st') ->
  (forall p, E p -> E' p) ->
  wp c Q R E st -> wp c Q' R' E' st.
Proof.
  unfold wp. intros HQ HR HE. destruct (c st) as [[a | err | p] st']; auto.
Qed.

Lemma wp_modify (f : St -> St) Q R E st :
  wp (modify f) Q R E st = Q tt (f st).
Proof. reflexivity. Qed.

Lemma wp_read `{Decoding St} {A} (f : Reader -> A * option error * Reader)
    Q R E st v err dc' :
  f (reader st) = (v, err, dc') ->
  wp (read f) Q R E st = Q (v, err) (withReader dc' st).
Proof. unfold wp, read. by intros ->. Qed.

Lemma wp_peekType `{Decoding St} Q R E st :
  wp peekType Q R E st = Q (NextType (reader st)) st.
Proof. reflexivity. Qed.

(** A loop with an invariant [I] over the index. *)
Lemma wp_forFrom (I : nat -> St -> Prop) (body : nat -> Stmt St unit) R E :
  forall n i st,
    I i st ->
    (forall j st1, (i <= j < i + n)%nat -> I j st1 ->
       wp (body j) (fun _ st2 => I (S j) st2) R E st1) ->
    wp (forFrom i n body) (fun _ st' => I (i + n)%nat st') R E st.
Proof.
  induction n as [|n IH]; intros i st Hi Hbody; simpl.
  - rewrite wp_next. by rewrite Nat.add_0_r.
  - rewrite wp_bind. eapply wp_mono; [|apply (Hbody i st); [lia|done]].
    intros [] st1 Hi1. simpl in *.
    replace (i + S n)%nat with (S i + n)%nat by lia.
    apply IH; [done|]. intros j st2 Hj. apply Hbody. lia.
Qed.

(** The result of a method, from what holds after its body. *)
Lemma wp_callMethod (body : Stmt St Empty_set) Q R E st r st' :
  wp body Q R E st ->
  callMethod body st = (r, st') ->
  match r with Normal err => R err st' | Panic p => E p end.
Proof.
  unfold wp, callMethod.
  destruct (body st) as [[[] | err | p] st1]; intros Hwp Hcall;
    by simplify_eq.
Qed.

End WeakestPre.

Section BatchShape.
Implicit Types (zs : Traces) (tr : Trace) (st : TracesSt).

Lemma sliceGet_ok {A} (s : slice A) (i : nat) :
  (i < slen s)%nat -> (slen s <= length (array s))%nat ->
  exists a, array s !! i = Some a /\ sliceGet s i = Normal a.
Proof.
  intros Hi Hlen. unfold sliceGet. rewrite decide_True by done.
  destruct (lookup_lt_is_Some_2 (array s) i) as [a Ha]; [lia|].
  exists a. by rewrite Ha.
Qed.

Lemma sliceSet_ok {A} (s : slice A) (i : nat) (a : A) :
  (i < slen s)%nat ->
  sliceSet s i a = Normal (mkSlice (<[i := a]> (array s)) (slen s)).
Proof. intros Hi. unfold sliceSet. by rewrite decide_True. Qed.

(** The slice taken for [xsz] elements, reused or made, has that length
    and holds it within its capacity. *)
Lemma resize_ok {A} (s : slice A) (zero : A) (xsz : Z) :
  let s' := if xsz <=? cap s then reslice s xsz else makeSlice zero xsz in
  slen s' = Z.to_nat xsz /\ (slen s' <= length (array s'))%nat.
Proof.
  simpl. destruct (Z.leb_spec xsz (cap s)) as [Hle | Hgt]; simpl.
  - split; [done|]. unfold cap, len in Hle. lia.
  - split; [done|]. by rewrite length_replicate.
Qed.

Lemma readingTrace_start M wht zs tr' :
  slen zs = M -> batchFilled wht zs -> (wht < M)%nat ->
  (slen tr' <= length (array tr'))%nat ->
  readingTrace M wht (slen tr') 0
    (mkSlice (<[wht := tr']> (array zs)) (slen zs)).
Proof.
  unfold slotGet, slotSet.
  intros HM [Hcap Hfill] Hwht Htr. split; [done|]. split; [|split; [done|]].
  unfold Traces, Trace in *.
  - split; simpl; [by rewrite length_insert|].
    intros j Hj. destruct (Hfill j Hj) as (tr & Htr' & Hf).
    exists tr. split; [|done]. rewrite list_lookup_insert_ne; [done|lia].
  - exists tr'. simpl. split.
    { apply list_lookup_insert_eq. subst M.
      by eapply Nat.lt_le_trans. }
    split; [done|]. split; [done|]. intros k Hk. lia.
Qed.

Lemma readingTrace_done M wht K zs :
  readingTrace M wht K K zs -> slen zs = M /\ batchFilled (S wht) zs.
Proof.
  unfold slotGet, slotSet.
  intros (HM & [Hcap Hfill] & Hwht & tr & Htr & HK & Hf).
  unfold Traces, Trace in *.
  split; [done|]. split; [done|]. intros j Hj.
  destruct (decide (j = wht)) as [-> | Hne].
  - exists tr. split; [done|]. by rewrite HK.
  - apply Hfill. lia.
Qed.

Lemma readingTrace_slotGet M wht K k zs (j : nat) :
  readingTrace M wht K k zs -> (j < K)%nat ->
  exists ptr, slotGet zs wht j = Normal ptr.
Proof.
  unfold slotGet, slotSet.
  intros (HM & [Hcap Hfill] & Hwht & tr & Htr & HK & [Htcap Hslots]) Hj.
  unfold Traces, Trace in *.
  destruct (sliceGet_ok zs wht) as (tr0 & Htr0 & ->); [lia|done|].
  pose proof (eq_trans (eq_sym Htr0) Htr) as [= ->].
  destruct (sliceGet_ok tr j) as (ptr & _ & ->); [lia|done|].
  by exists ptr.
Qed.

Lemma readingTrace_slotSet M wht K k zs (v : Span) :
  readingTrace M wht K k zs -> (k < K)%nat ->
  exists zs',
    slotSet zs wht k (Some v) = Normal zs'
    /\ readingTrace M wht K (S k) zs'
    /\ slotGet zs' wht k = Normal (Some v).
Proof.
  unfold slotGet, slotSet.
  intros (HM & [Hcap Hfill] & Hwht & tr & Htr & HK & [Htcap Hslots]) Hk.
  unfold Traces, Trace in *.
  destruct (sliceGet_ok zs wht) as (tr0 & Htr0 & ->); [lia|done|].
  pose proof (eq_trans (eq_sym Htr0) Htr) as [= ->].
  rewrite (sliceSet_ok tr k) by lia. rewrite (sliceSet_ok zs wht) by lia.
  eexists. split; [done|].
  set (tr' := mkSlice (<[k := Some v]> (array tr)) (slen tr)).
  assert (Hlook : <[wht := tr']> (array zs) !! wht = Some tr')
    by (apply list_lookup_insert_eq; lia).
  assert (Hslot : array tr' !! k = Some (Some v))
    by (simpl; apply list_lookup_insert_eq; lia).
  split.
  - split; [done|]. split; [|split; [done|]].
    + split; simpl; [by rewrite length_insert|].
      intros j Hj. destruct (Hfill j Hj) as (trj & Htrj & Hf).
      exists trj. split; [|done]. rewrite list_lookup_insert_ne; [done|lia].
    + exists tr'. split; [done|]. split; [done|].
      split; [simpl; by rewrite length_insert|].
      intros j Hj. destruct (decide (j = k)) as [-> | Hne].
      * by exists v.
      * destruct (Hslots j ltac:(lia)) as [sp Hsp]. exists sp. simpl.
        rewrite list_lookup_insert_ne; [done|lia].
  - unfold sliceGet. simpl.
    rewrite decide_True by lia. rewrite Hlook. simpl.
    rewrite decide_True by lia. by rewrite list_lookup_insert_eq by lia.
Qed.

Lemma readingTrace_weaken M wht K k zs :
  readingTrace M wht K (S k) zs -> readingTrace M wht K k zs.
Proof.
  intros (HM & Hb & Hwht & tr & Htr & HK & [Htcap Hslots]).
  split; [done|]. split; [done|]. split; [done|].
  exists tr. split; [done|]. split; [done|]. split; [done|].
  intros j Hj. apply Hslots. lia.
Qed.

End BatchShape.

Section TracesWp.
Variable dict : list string.
Variable Final : TracesSt -> Prop.

Local Abbreviation R :=
  (fun (err : option error) st' => err = None -> Final st').
Local Abbreviation E := (negativeIndexPanic (len dict)).

Lemma wp_storeTraces (f : Traces -> Traces) Q (R0 : _ -> _ -> Prop) E0 st :
  wp (storeTraces f) Q R0 E0 st
  = Q tt (mkTracesSt (tdc st) (thp st) (f (tz st))).
Proof. reflexivity. Qed.

(** The call on a slot that holds a span: the slot holds the span the
    callee left, and the callee's panic is the caller's. *)
Lemma callSpan_wp M wht K k st sp :
  readingTrace M wht K k (tz st) -> (k < K)%nat ->
  slotGet (tz st) wht k = Normal (Some sp) ->
  wp (callSpan dict wht k)
    (fun _ st2 => readingTrace M wht K (S k) (tz st2)) R E st.
Proof.
  intros Hrt Hk Hget. unfold wp, callSpan. rewrite Hget.
  destruct (callMethod (Span_DecodeMsgArray dict)
              (mkSpanSt (tdc st) (thp st) sp)) as [r sst] eqn:Hcall.
  destruct (readingTrace_slotSet _ _ _ _ _ (z sst) Hrt Hk)
    as (zs' & -> & Hrt' & _).
  destruct r as [err | p]; simpl; [done|]. by eapply spanCall_panic.
Qed.

(** One turn of the loop over the spans of a trace. *)
Lemma spanTurn_wp M wht K k st :
  readingTrace M wht K k (tz st) -> (k < K)%nat ->
  wp (let* st := get in
      let* ptr := eval (slotGet (tz st) wht k) in
      (if isNil ptr
       then let* zs := eval (slotSet (tz st) wht k (Some newSpan)) in
            storeTraces (fun _ => zs)
       else next tt) ;;
      let* err := callSpan dict wht k in
      check err)
    (fun _ st2 => readingTrace M wht K (S k) (tz st2)) R E st.
Proof.
  intros Hrt Hk. rewrite wp_bind, wp_get, wp_bind, wp_eval.
  destruct (readingTrace_slotGet _ _ _ _ _ k Hrt Hk) as [ptr Hptr].
  rewrite Hptr, wp_bind. destruct ptr as [sp|]; simpl.
  - rewrite wp_next, wp_bind.
    eapply wp_mono; [|by eapply callSpan_wp].
    intros err st2 H2. simpl in H2. rewrite wp_check.
    by destruct err.
  - rewrite wp_bind, wp_eval.
    destruct (readingTrace_slotSet _ _ _ _ _ newSpan Hrt Hk)
      as (zs' & -> & Hrt' & Hget').
    rewrite wp_storeTraces, wp_bind.
    eapply wp_mono; [|eapply callSpan_wp; [|done|exact Hget']].
    + intros err st2 H2. simpl in H2. rewrite wp_check. by destruct err.
    + by apply readingTrace_weaken.
Qed.

(** One turn of the loop over the traces: the trace at [wht] is resized
    to the count read and each of its slots is given a span. *)
Lemma traceTurn_wp M wht st :
  slen (tz st) = M -> batchFilled wht (tz st) -> (wht < M)%nat ->
  wp (let* (xsz, err) := read ReadArrayHeader in
      check err ;;
      let* st := get in
      let* trace := eval (sliceGet (tz st) wht) in
      let* zs :=
        eval (sliceSet (tz st) wht
                (if xsz <=? cap trace
                 then reslice trace xsz
                 else makeSlice None xsz)) in
      storeTraces (fun _ => zs) ;;
      let* st := get in
      let* trace := eval (sliceGet (tz st) wht) in
      forRange (slen trace) (fun hct =>
        let* st := get in
        let* ptr := eval (slotGet (tz st) wht hct) in
        (if isNil ptr
         then let* zs := eval (slotSet (tz st) wht hct (Some newSpan)) in
              storeTraces (fun _ => zs)
         else next tt) ;;
        let* err := callSpan dict wht hct in
        check err))
    (fun _ st2 => slen (tz st2) = M /\ batchFilled (S wht) (tz st2)) R E st.
Proof.
  intros HM Hb Hwht. rewrite wp_bind.
  destruct (ReadArrayHeader (tdc st)) as [[xsz err] dc1] eqn:Hhdr.
  rewrite (wp_read _ _ _ _ _ _ _ _ Hhdr). simpl.
  rewrite wp_bind, wp_check. destruct err as [e|]; [done|].
  rewrite wp_bind, wp_get, wp_bind, wp_eval. simpl.
  destruct (sliceGet_ok (tz st) wht) as (trace & Htrace & ->);
    [lia|apply Hb|].
  rewrite wp_bind, wp_eval, sliceSet_ok by lia.
  rewrite wp_bind, wp_storeTraces, wp_bind, wp_get. simpl.
  match goal with
  | |- context [<[wht := ?t]> _] => set (trace' := t)
  end.
  assert (Hcap' : (slen trace' <= length (array trace'))%nat)
    by apply (resize_ok trace None xsz).
  pose proof (readingTrace_start M wht (tz st) trace' HM Hb Hwht Hcap')
    as Hrt.
  rewrite wp_bind, wp_eval.
  destruct (sliceGet_ok
              (mkSlice (<[wht := trace']> (array (tz st))) (slen (tz st)))
              wht) as (tr2 & Htr2 & ->).
  { simpl. lia. }
  { simpl. rewrite length_insert. apply Hb. }
  simpl in Htr2. rewrite list_lookup_insert_eq in Htr2.
  2: { destruct Hb as [Hle _]. lia. }
  injection Htr2 as <-.
  unfold forRange.
  eapply wp_mono;
    [|apply (wp_forFrom
               (fun k st2 => readingTrace M wht (slen trace') k (tz st2)))].
  - intros [] st2 Hdone. simpl in Hdone. by apply readingTrace_done in Hdone.
  - exact Hrt.
  - intros k st1 Hk Hrt1. apply spanTurn_wp; [done|lia].
Qed.

(** The block that reads the traces: it returns, with an error or with
    a batch of the count read in which every slot holds a span, or panics
    on a negative dictionary index. *)
Lemma readTraces_wp st :
  (forall xsz dc1 st',
     ReadArrayHeader (tdc st) = (xsz, None, dc1) ->
     slen (tz st') = Z.to_nat xsz ->
     batchFilled (slen (tz st')) (tz st') -> Final st') ->
  wp (readTraces dict) (fun _ _ => False) R E st.
Proof.
  intros HFinal. unfold readTraces. rewrite wp_bind.
  destruct (ReadArrayHeader (tdc st)) as [[xsz err] dc1] eqn:Hhdr.
  rewrite (wp_read _ _ _ _ _ _ _ _ Hhdr). simpl.
  rewrite wp_bind, wp_check. destruct err as [e|]; [done|].
  rewrite wp_bind, wp_get. simpl. rewrite wp_bind.
  set (zs := if xsz <=? cap (tz st) then reslice (tz st) xsz
             else makeSlice nilSlice xsz).
  assert (Hzs : slen zs = Z.to_nat xsz /\ (slen zs <= length (array zs))%nat)
    by apply (resize_ok (tz st) nilSlice xsz).
  destruct Hzs as [Hlen Hcap].
  assert (Hstore :
    forall Q,
      Q tt (mkTracesSt dc1 (thp st) zs) ->
      wp (if xsz <=? cap (tz st)
          then storeTraces (fun zs => reslice zs xsz)
          else storeTraces (fun _ => makeSlice nilSlice xsz)) Q R E
        (mkTracesSt dc1 (thp st) (tz st))).
  { intros Q HQ. unfold zs in HQ.
    destruct (xsz <=? cap (tz st)); by rewrite wp_storeTraces. }
  apply Hstore. rewrite wp_bind, wp_get. simpl. rewrite wp_bind.
  unfold forRange.
  eapply wp_mono;
    [|apply (wp_forFrom
               (fun j st2 =>
                  slen (tz st2) = slen zs /\ batchFilled j (tz st2)))].
  - intros [] st2 [Hlen2 Hb2]. simpl in Hb2. rewrite wp_return.
    intros _. apply (HFinal xsz dc1); [done|congruence|].
    by rewrite Hlen2.
  - simpl. split; [done|]. split; [done|]. intros j Hj. lia.
  - intros j st1 Hj [Hlen1 Hb1]. apply traceTurn_wp; [done|done|lia].
Qed.

End TracesWp.

Section TracesSafety.

(** The loop over the dictionary never panics: an entry is taken or the
    method returns an error. *)
Lemma dictLoop_wp {A} (Q : _ -> _ -> Prop) (R : _ -> _ -> Prop)
    (E : panic -> Prop) (k : list string -> Stmt TracesSt A) n :
  forall i d st,
    (forall e st', R (Some e) st') ->
    (forall d' st', wp (k d') Q R E st') ->
    wp (let* d' := dictLoop i n d in k d') Q R E st.
Proof.
  induction n as [|n IH]; intros i d st HR Hk; simpl.
  - by rewrite wp_bind, wp_next.
  - rewrite !wp_bind, wp_peekType.
    destruct (NextType (reader st)) as [t err]. simpl.
    rewrite wp_bind, wp_check. destruct err as [e|]; [apply HR|].
    rewrite wp_bind.
    destruct t; try (rewrite wp_return; apply HR).
    + rewrite wp_bind.
      destruct (ReadString (reader st)) as [[utf8 err] dc1] eqn:Hread.
      rewrite (wp_read _ _ _ _ _ _ _ _ Hread). simpl.
      rewrite wp_bind, wp_check. destruct err as [e|]; [apply HR|].
      rewrite wp_next. rewrite <- wp_bind. by apply IH.
    + rewrite wp_bind.
      destruct (ReadBytes (reader st)) as [[bytes err] dc1] eqn:Hread.
      rewrite (wp_read _ _ _ _ _ _ _ _ Hread). simpl.
      rewrite wp_bind, wp_check. destruct err as [e|]; [apply HR|].
      rewrite wp_next. rewrite <- wp_bind. by apply IH.
    + rewrite wp_next. rewrite <- wp_bind. by apply IH.
Qed.

Lemma Traces_DecodeMsgArray_wp (Final : TracesSt -> Prop) st :
  (forall st', batchFilled (slen (tz st')) (tz st') -> Final st') ->
  wp Traces_DecodeMsgArray (fun _ _ => False)
    (fun err st' => err = None -> Final st')
    (fun p => exists n, negativeIndexPanic n p) st.
Proof.
  intros HFinal. unfold Traces_DecodeMsgArray. rewrite wp_bind.
  destruct (ReadArrayHeader (tdc st)) as [[n0 err] dc1] eqn:Hhdr.
  rewrite (wp_read _ _ _ _ _ _ _ _ Hhdr). simpl.
  rewrite wp_bind, wp_check. destruct err as [e|]; [done|].
  unfold readDictionary. rewrite !wp_bind.
  destruct (ReadArrayHeader dc1) as [[sz err] dc2] eqn:Hsz.
  rewrite (wp_read _ _ _ _ (mkTracesSt dc1 (thp st) (tz st)) _ _ _ Hsz).
  simpl.
  rewrite wp_bind, wp_check. destruct err as [e|]; [done|].
  rewrite <- wp_bind. apply dictLoop_wp; [done|].
  intros d' st'.
  eapply wp_conseq; [| | |apply (readTraces_wp d' Final)]; eauto.
Qed.

(** X12. Whatever the input and whatever batch the receiver holds, the
    only panic of [Traces.DecodeMsgArray] is the index-out-of-range panic
    of a negative dictionary index in a span record: the method never
    indexes the batch or a trace out of range, never calls the span
    decoder on a nil pointer and never writes to a nil map. *)
Theorem Traces_DecodeMsgArray_panics st p st' :
  callMethod Traces_DecodeMsgArray st = (Panic p, st') ->
  exists n, negativeIndexPanic n p.
Proof.
  intros Hcall.
  apply (wp_callMethod _ _ _ _ _ _ _
           (Traces_DecodeMsgArray_wp (fun _ => True) st ltac:(done)) Hcall).
Qed.

Lemma Traces_DecodeMsgArray_panics_witness :
  (callMethod Traces_DecodeMsgArray
     (mkTracesSt [WArrayHeader 2; WArrayHeader 1; WStr "web";
                  WArrayHeader 1; WArrayHeader 1;
                  WArrayHeader 12; WInt (-1)]
        (mkHeap ∅ ∅) nilSlice)).1
  = Panic (IndexOutOfRangePanic (-1) 1)
  /\ exists n, negativeIndexPanic n (IndexOutOfRangePanic (-1) 1).
Proof.
  split; [reflexivity|].
  apply (Traces_DecodeMsgArray_panics
           (mkTracesSt [WArrayHeader 2; WArrayHeader 1; WStr "web";
                        WArrayHeader 1; WArrayHeader 1;
                        WArrayHeader 12; WInt (-1)]
              (mkHeap ∅ ∅) nilSlice)
           _
           (mkTracesSt [] (mkHeap ∅ ∅) (mkSlice [mkSlice [Some newSpan] 1] 1))).
  reflexivity.
Defined.

(** X13. After a decode without error, whatever the batch held before and
    whatever capacity it is decoded into, no span pointer of a trace of
    the batch is nil. *)
Theorem Traces_DecodeMsgArray_no_nil_span st st' :
  callMethod Traces_DecodeMsgArray st = (Normal None, st') ->
  forall tr ptr, tr ∈ elems (tz st') -> ptr ∈ elems tr -> ptr <> None.
Proof.
  intros Hcall.
  pose proof (wp_callMethod _ _ _ _ _ _ _
    (Traces_DecodeMsgArray_wp
       (fun st' => batchFilled (slen (tz st')) (tz st')) st
       ltac:(done)) Hcall) as Hb.
  simpl in Hb. specialize (Hb eq_refl). destruct Hb as [_ Hfill].
  intros tr ptr Htr Hptr. unfold elems in *.
  apply list_elem_of_lookup_1 in Htr as [j Hj].
  apply lookup_take_Some in Hj as [Hj Hlt].
  destruct (Hfill j Hlt) as (tr0 & Htr0 & _ & Hslots).
  pose proof (eq_trans (eq_sym Htr0) Hj) as [= ->].
  apply list_elem_of_lookup_1 in Hptr as [k Hk].
  apply lookup_take_Some in Hk as [Hk Hklt].
  destruct (Hslots k Hklt) as [sp Hsp].
  pose proof (eq_trans (eq_sym Hsp) Hk) as [= <-]. done.
Qed.

Lemma Traces_DecodeMsgArray_no_nil_span_witness :
  callMethod Traces_DecodeMsgArray
    (mkTracesSt (examplePayload false false false false false false)
       (mkHeap ∅ ∅) (mkSlice [mkSlice [None; None] 0] 0))
  = (Normal None,
     mkTracesSt [] (mkHeap ∅ ∅)
       (mkSlice
          [mkSlice
             [Some (mkSpan "web" "GET /" "web" 1 2 0 1000 500 0 None None
                      "GET /"); None] 1] 1))
  /\ forall tr ptr,
       tr ∈ elems
              (mkSlice
                 [mkSlice
                    [Some (mkSpan "web" "GET /" "web" 1 2 0 1000 500 0
                             None None "GET /"); None] 1] 1) ->
       ptr ∈ elems tr -> ptr <> None.
Proof.
  assert (Hcall :
    callMethod Traces_DecodeMsgArray
      (mkTracesSt (examplePayload false false false false false false)
         (mkHeap ∅ ∅) (mkSlice [mkSlice [None; None] 0] 0))
    = (Normal None,
       mkTracesSt [] (mkHeap ∅ ∅)
         (mkSlice
            [mkSlice
               [Some (mkSpan "web" "GET /" "web" 1 2 0 1000 500 0 None None
                        "GET /"); None] 1] 1))) by reflexivity.
  split; [exact Hcall|].
  apply (Traces_DecodeMsgArray_no_nil_span _ _ Hcall).
Defined.

(** X14. A decode without error of a payload whose dictionary holds
    strings leaves in the batch as many traces as the array header after
    the dictionary declares. *)
Theorem Traces_DecodeMsgArray_count
    (a : Z) (es : list (bool * string)) rest h zs st' :
  callMethod Traces_DecodeMsgArray
    (mkTracesSt (WArrayHeader a :: WArrayHeader (len es) :: map dictEntry es
                   ++ rest) h zs)
  = (Normal None, st') ->
  exists n rest',
    rest = WArrayHeader n :: rest'
    /\ length (elems (tz st')) = Z.to_nat n.
Proof.
  rewrite Traces_DecodeMsgArray_strings. intros Hcall.
  assert (Hwp :
    wp (readTraces es.*2) (fun _ _ => False)
      (fun err st' =>
         err = None ->
         exists n rest',
           rest = WArrayHeader n :: rest'
           /\ length (elems (tz st')) = Z.to_nat n)
      (negativeIndexPanic (len es.*2)) (mkTracesSt rest h zs)).
  { apply readTraces_wp. simpl. intros xsz dc1 st1 Hhdr Hlen [Hcap _].
    exists xsz, dc1. split.
    - destruct rest as [|w rest0]; [done|].
      destruct w; simpl in Hhdr; by simplify_eq.
    - unfold elems. rewrite length_take. lia. }
  by apply (wp_callMethod _ _ _ _ _ _ _ Hwp Hcall).
Qed.

Lemma Traces_DecodeMsgArray_count_witness :
  callMethod Traces_DecodeMsgArray
    (mkTracesSt
       (WArrayHeader 2 :: WArrayHeader (len [(false, "web"%string)])
          :: map dictEntry [(false, "web"%string)]
          ++ [WArrayHeader 2; WArrayHeader 0; WArrayHeader 0])
       (mkHeap ∅ ∅) nilSlice)
  = (Normal None,
     mkTracesSt [] (mkHeap ∅ ∅) (mkSlice [mkSlice [] 0; mkSlice [] 0] 2))
  /\ exists n rest',
       [WArrayHeader 2; WArrayHeader 0; WArrayHeader 0]
       = WArrayHeader n :: rest'
       /\ length (elems (mkSlice [mkSlice (A:=option Span) [] 0;
                                 mkSlice [] 0] 2))
          = Z.to_nat n.
Proof.
  assert (Hcall :
    callMethod Traces_DecodeMsgArray
      (mkTracesSt
         (WArrayHeader 2 :: WArrayHeader (len [(false, "web"%string)])
            :: map dictEntry [(false, "web"%string)]
            ++ [WArrayHeader 2; WArrayHeader 0; WArrayHeader 0])
         (mkHeap ∅ ∅) nilSlice)
    = (Normal None,
       mkTracesSt [] (mkHeap ∅ ∅)
         (mkSlice [mkSlice [] 0; mkSlice [] 0] 2))) by reflexivity.
  split; [exact Hcall|].
  apply (Traces_DecodeMsgArray_count _ _ _ _ _ _ Hcall).
Defined.

End TracesSafety.

Section Completeness.
Implicit Types (dictionary : list string) (st : SpanSt).

Lemma parseStringDict_at dictionary i s rest :
  dictAt dictionary i s ->
  parseStringDict (WInt i :: rest) dictionary = (Normal (s, None), rest).
Proof.
  intros [Hi Hs]. unfold parseStringDict, ReadInt, ReadInt64.
  assert (Hlt : i < len dictionary).
  { apply lookup_lt_Some in Hs. unfold len. lia. }
  destruct (Z.leb_spec (len dictionary) i); [lia|].
  destruct (index_in_range dictionary i) as (a & Ha & ->); [lia|].
  by simplify_eq.
Qed.

(** The Meta loop goes over entries that the wire holds in full. *)
Lemma metaLoop_runs dictionary n :
  forall st kvs dcB,
    n = 0%nat \/ is_Some (Meta (z st)) ->
    wireMeta dictionary n (dc st) = Some (kvs, dcB) ->
    exists st', metaLoop dictionary n st = (Next tt, st').
Proof.
  induction n as [|n IH]; intros st kvs dcB Hmap Hwire; [by eexists|].
  destruct Hmap as [|[l Hl]]; [done|].
  destruct st as [dc0 h0 z0]. simpl in *.
  unfold bind, readDict, check, next. simpl.
  destruct (parseStringDict dc0 dictionary)
    as [[[k [e|]] | p] dc1]; try done. simpl.
  destruct (parseStringDict dc1 dictionary)
    as [[[v [e|]] | p] dc2]; try done. simpl.
  destruct (wireMeta dictionary n dc2) as [[kvs' dcB']|] eqn:Hrest;
    [|done].
  unfold assignMeta, mapAssign. simpl. rewrite Hl. simpl.
  eapply IH; [right; simpl; by rewrite Hl|exact Hrest].
Qed.

Lemma metricsLoop_runs dictionary n :
  forall st nvs dcB,
    n = 0%nat \/ is_Some (Metrics (z st)) ->
    wireMetrics dictionary n (dc st) = Some (nvs, dcB) ->
    exists st', metricsLoop dictionary n st = (Next tt, st').
Proof.
  induction n as [|n IH]; intros st nvs dcB Hmap Hwire; [by eexists|].
  destruct Hmap as [|[l Hl]]; [done|].
  destruct st as [dc0 h0 z0]. simpl in *.
  unfold bind, readDict, read, check, next. simpl.
  destruct (parseStringDict dc0 dictionary)
    as [[[k [e|]] | p] dc1]; try done. simpl.
  destruct (parseFloat64 dc1) as [[v [e|]] dc2]; try done. simpl.
  destruct (wireMetrics dictionary n dc2) as [[nvs' dcB']|] eqn:Hrest;
    [|done].
  unfold assignMetrics, mapAssign. simpl. rewrite Hl. simpl.
  eapply IH; [right; simpl; by rewrite Hl|exact Hrest].
Qed.

Lemma decodeMeta_runs dictionary n dcA kvs dcB h sp :
  wireMeta dictionary (Z.to_nat n) dcA = Some (kvs, dcB) ->
  exists st',
    decodeMeta dictionary (mkSpanSt (WMapHeader n :: dcA) h sp)
    = (Next tt, st').
Proof.
  intros Hwire. unfold decodeMeta, bind, read, check, get, next. simpl.
  destruct (Meta sp) as [l|] eqn:HM; simpl.
  - match goal with
    | |- context [if ?c then clearMeta else _] => destruct c
    end.
    + unfold clearMeta. simpl. rewrite HM.
      eapply metaLoop_runs; [right; simpl; by rewrite HM|exact Hwire].
    + eapply metaLoop_runs; [right; simpl; by rewrite HM|exact Hwire].
  - destruct (Z.ltb_spec 0 n) as [Hpos | Hle]; simpl.
    + eapply metaLoop_runs; [by right|exact Hwire].
    + eapply metaLoop_runs; [left; lia|exact Hwire].
Qed.

Lemma decodeMetrics_runs dictionary n dcA nvs dcB h sp :
  wireMetrics dictionary (Z.to_nat n) dcA = Some (nvs, dcB) ->
  exists st',
    decodeMetrics dictionary (mkSpanSt (WMapHeader n :: dcA) h sp)
    = (Next tt, st').
Proof.
  intros Hwire. unfold decodeMetrics, bind, read, check, get, next. simpl.
  destruct (Metrics sp) as [l|] eqn:HM; simpl.
  - match goal with
    | |- context [if ?c then clearMetrics else _] => destruct c
    end.
    + unfold clearMetrics. simpl. rewrite HM.
      eapply metricsLoop_runs; [right; simpl; by rewrite HM|exact Hwire].
    + eapply metricsLoop_runs; [right; simpl; by rewrite HM|exact Hwire].
  - destruct (Z.ltb_spec 0 n) as [Hpos | Hle]; simpl.
    + eapply metricsLoop_runs; [by right|exact Hwire].
    + eapply metricsLoop_runs; [left; lia|exact Hwire].
Qed.

Ltac string_field H :=
  unfold decodeService, decodeName, decodeResource, decodeType, bind,
    readDict, store, modify, check, next;
  simpl; rewrite (parseStringDict_at _ _ _ _ H); reflexivity.

Ltac number_field lem :=
  unfold decodeTraceID, decodeSpanID, decodeParentID, decodeStart,
    decodeDuration, decodeError, bind, read, store, modify, check, next;
  simpl; rewrite lem; [reflexivity | assumption].

(** X15. The span decoder accepts every record that is well formed for
    the dictionary: twelve values, of which the four strings are indices
    into the dictionary, the six numbers are within the range of their
    field, typed as signed or as unsigned, and the two maps hold as many
    entries as they declare.  The decode returns no error, leaves the
    reader right after the record, and the span holds the strings the
    indices stand for, the numbers, and maps with the entries of the
    record and no other. *)
Theorem Span_DecodeMsgArray_complete dictionary
    (i0 i1 i2 i11 : Z) (s0 s1 s2 s11 : string)
    (b3 b4 b5 b6 b7 b8 : bool) (tid sid pid start dur e : Z)
    (n : Z) dcA kvs (m : Z) dcB nvs rest h z0 :
  dictAt dictionary i0 s0 -> dictAt dictionary i1 s1 ->
  dictAt dictionary i2 s2 -> dictAt dictionary i11 s11 ->
  0 <= tid <= MaxInt64 -> 0 <= sid <= MaxInt64 -> 0 <= pid <= MaxInt64 ->
  0 <= start <= MaxInt64 -> 0 <= dur <= MaxInt64 -> 0 <= e <= MaxInt32 ->
  wireMeta dictionary (Z.to_nat n) dcA = Some (kvs, WMapHeader m :: dcB) ->
  wireMetrics dictionary (Z.to_nat m) dcB = Some (nvs, WInt i11 :: rest) ->
  exists h',
    callMethod (Span_DecodeMsgArray dictionary)
      (mkSpanSt
         (WArrayHeader 12 :: WInt i0 :: WInt i1 :: WInt i2
            :: wireInt b3 tid :: wireInt b4 sid :: wireInt b5 pid
            :: wireInt b6 start :: wireInt b7 dur :: wireInt b8 e
            :: WMapHeader n :: dcA) h z0)
    = (Normal None,
       mkSpanSt rest h'
         (mkSpan s0 s1 s2 tid sid pid start dur e
            (refAfter (strMaps h) (Meta z0) n)
            (refAfter (numMaps h) (Metrics z0) m) s11))
    /\ entries (strMaps h') (refAfter (strMaps h) (Meta z0) n)
       = writeEntries ∅ kvs
    /\ entries (numMaps h') (refAfter (numMaps h) (Metrics z0) m)
       = writeEntries ∅ nvs.
Proof.
  intros H0 H1 H2 H11 Htid Hsid Hpid Hstart Hdur He HMeta HMetrics.
  rewrite Span_DecodeMsgArray_seq. unfold fieldDecoders.
  erewrite (callMethod_seq_next (decodeService dictionary) _ _ _
              (mkSpanSt _ h (setService s0 z0))) by string_field H0.
  erewrite (callMethod_seq_next (decodeName dictionary) _ _ _
              (mkSpanSt _ h (setName s1 (setService s0 z0))))
    by string_field H1.
  set (sp3 := setResource s2 (setName s1 (setService s0 z0))).
  erewrite (callMethod_seq_next (decodeResource dictionary) _ _ _
              (mkSpanSt _ h sp3)) by string_field H2.
  erewrite (callMethod_seq_next decodeTraceID _ _ _
              (mkSpanSt _ h (setTraceID tid sp3)))
    by number_field parseUint64_wireInt.
  erewrite (callMethod_seq_next decodeSpanID _ _ _
              (mkSpanSt _ h (setSpanID sid (setTraceID tid sp3))))
    by number_field parseUint64_wireInt.
  set (sp6 := setParentID pid (setSpanID sid (setTraceID tid sp3))).
  erewrite (callMethod_seq_next decodeParentID _ _ _ (mkSpanSt _ h sp6))
    by number_field parseUint64_wireInt.
  erewrite (callMethod_seq_next decodeStart _ _ _
              (mkSpanSt _ h (setStart start sp6)))
    by number_field parseInt64_wireInt.
  erewrite (callMethod_seq_next decodeDuration _ _ _
              (mkSpanSt _ h (setDuration dur (setStart start sp6))))
    by number_field parseInt64_wireInt.
  set (sp9 := setError e (setDuration dur (setStart start sp6))).
  erewrite (callMethod_seq_next decodeError _ _ _ (mkSpanSt _ h sp9))
    by number_field parseInt32_wireInt.
  destruct (decodeMeta_runs dictionary n dcA kvs _ h sp9 HMeta)
    as [[dc10 h10 z10] Hrun10].
  rewrite (callMethod_seq_next _ _ _ _ _ Hrun10).
  apply decodeMeta_success in Hrun10
    as (n' & dc1' & kvs' & Hdc & Hwire & Hz & Hnum & Href & Hent & _).
  simpl in Hdc, Hwire, Hz, Hnum, Href, Hent. injection Hdc as <- <-.
  rewrite HMeta in Hwire. injection Hwire as <- <-.
  destruct (decodeMetrics_runs dictionary m dcB nvs _ h10 z10 HMetrics)
    as [[dc11 h11 z11] Hrun11].
  rewrite (callMethod_seq_next _ _ _ _ _ Hrun11).
  apply decodeMetrics_success in Hrun11
    as (m' & dc2' & nvs' & Hdc & Hwire & Hz' & Hstr & Href' & Hent' & _).
  simpl in Hdc, Hwire, Hz', Hstr, Href', Hent'. injection Hdc as <- <-.
  rewrite HMetrics in Hwire. injection Hwire as <- <-.
  erewrite (callMethod_seq_next (decodeType dictionary) _ _ _
              (mkSpanSt rest h11 (setType s11 z11))) by string_field H11.
  exists h11. rewrite Hz' in *. rewrite Hz in *. simpl in *.
  rewrite Hnum in Href'. rewrite Hstr.
  rewrite <- Href, <- Href'. split; [|split; [|done]].
  - reflexivity.
  - by rewrite Href, <- Hent, Href.
Qed.

Lemma Span_DecodeMsgArray_complete_witness :
  wireMeta reuseDict (Z.to_nat 1) [WInt 1; WInt 2; WMapHeader 0; WInt 0]
  = Some ([("k", "v")]%string, [WMapHeader 0; WInt 0])
  /\ exists h',
       callMethod (Span_DecodeMsgArray reuseDict)
         (mkSpanSt reusePayload reuseHeap reuseSpan)
       = (Normal None,
          mkSpanSt [] h'
            (mkSpan "web" "web" "web" 1 2 0 1000 500 0
               (Some 1%positive) None "web"))
       /\ entries (strMaps h') (Some 1%positive)
          = writeEntries ∅ [("k", "v")]%string
       /\ entries (numMaps h') None = writeEntries ∅ [].
Proof.
  split; [reflexivity|].
  apply (Span_DecodeMsgArray_complete reuseDict 0 0 0 0
           "web" "web" "web" "web" false false false false false false
           1 2 0 1000 500 0
           1 [WInt 1; WInt 2; WMapHeader 0; WInt 0] [("k", "v")]%string
           0 [WInt 0] [] [] reuseHeap reuseSpan);
    first [ by (split; [lia|reflexivity])
          | (unfold MaxInt64, MaxInt32; lia)
          | reflexivity ].
Defined.

End Completeness.
